(** * shadow-memory: the markdown chunker, the indexer and the query tool

    A shallow embedding of [scripts/index-skills.py] and
    [scripts/query-skills.py].

    - A Python [str] is a sequence of Unicode code points: [str] is
      [list N], one number per code point.
    - [re.match(r"^(#{1,4})\s+(.+)$", line)] is run by a small greedy,
      backtracking matcher written in continuation-passing style, one
      combinator per regex construct.
    - The [for] loop of [chunk_markdown] is a left fold of [step] over
      the lines; the header stack is a list whose LAST element is the top,
      as the Python list is.
    - The vector store is a finite map from collection names to the
      documents they hold; [main] threads it together with what is
      printed.
    - Distances and relevances are IEEE 754 binary64 numbers. *)

From Stdlib Require Import Floats Ascii String.
From stdpp Require Import base numbers list sorting strings pretty gmap.

(** ** Python strings *)

Definition char := N.
Definition str := list char.

(** A Rocq string literal read as a Python [str]. *)
Fixpoint py (s : string) : str :=
  match s with
  | EmptyString => []
  | String a s' => N_of_ascii a :: py s'
  end.

Arguments py : simpl never.

Definition newline : char := 10%N.
Definition hash : char := 35%N.

(** [Py_UNICODE_ISSPACE]: the code points that [str.strip] removes and
    that [\s] matches in a [str] pattern. *)
Definition isspace (c : char) : bool :=
  (((9 <=? c) && (c <=? 13)) || ((28 <=? c) && (c <=? 32))
   || (c =? 133) || (c =? 160) || (c =? 5760)
   || ((8192 <=? c) && (c <=? 8202))
   || (c =? 8232) || (c =? 8233) || (c =? 8239) || (c =? 8287)
   || (c =? 12288))%N.

Definition is_hash (c : char) : bool := (c =? hash)%N.

(** The regex [.] without DOTALL: anything but a newline. *)
Definition dot (c : char) : bool := negb (c =? newline)%N.

(** [content.split("\n")]: [cur] is the line being read. The result is
    never empty. *)
Fixpoint split_from (cur : str) (s : str) : list str :=
  match s with
  | [] => [cur]
  | c :: s' =>
      if (c =? newline)%N then cur :: split_from [] s'
      else split_from (cur ++ [c]) s'
  end.

Definition split_lines (content : str) : list str := split_from [] content.

(** [sep.join(parts)]. *)
Fixpoint join (sep : str) (parts : list str) : str :=
  match parts with
  | [] => []
  | [p] => p
  | p :: rest => p ++ sep ++ join sep rest
  end.

Fixpoint lstrip (s : str) : str :=
  match s with
  | [] => []
  | c :: s' => if isspace c then lstrip s' else s
  end.

Definition rstrip (s : str) : str := rev (lstrip (rev s)).

(** [s.strip()]. *)
Definition strip (s : str) : str := rstrip (lstrip s).

(** ** The header pattern *)

Section Regex.
Context {A : Type}.

(** [x{lo,hi}], greedy: take one more [x] while allowed, and fall back
    to what was taken so far when the rest of the pattern ([k], given
    the text matched and the text left) fails. [hi = None] is no upper
    bound. *)
Fixpoint greedy (p : char → bool) (lo : nat) (hi : option nat)
    (taken : str) (s : str) (k : str → str → option A) : option A :=
  let stop := if lo is O then k taken s else None in
  match s with
  | [] => stop
  | c :: s' =>
      if p c && (if hi is Some O then false else true) then
        match greedy p (pred lo) (pred <$> hi) (taken ++ [c]) s' k with
        | Some r => Some r
        | None => stop
        end
      else stop
  end.

End Regex.

(** [$] without MULTILINE: the end of the string, or just before a
    newline that ends it. *)
Definition at_end (s : str) : bool :=
  match s with
  | [] => true
  | [c] => (c =? newline)%N
  | _ => false
  end.

(** [re.match(r"^(#{1,4})\s+(.+)$", line)]: the two groups of the match.
    [re.match] anchors at the start, so [^] asks nothing more. *)
Definition header_match (line : str) : option (str * str) :=
  greedy is_hash 1 (Some 4%nat) [] line (λ g1 r1,
    greedy isspace 1 None [] r1 (λ _ r2,
      greedy dot 1 None [] r2 (λ g2 r3,
        if at_end r3 then Some (g1, g2) else None))).

(** ** The chunker *)

Record chunk := Chunk { text : str; header : str; source : str }.

(** The local variables of [chunk_markdown] that the loop updates. The
    top of [header_stack] is its last element. *)
Record state := State {
  chunks : list chunk;
  current_chunk : list str;
  current_header : str;
  header_stack : list (nat * str)
}.

(** Lines 23-32 and again 46-51: the buffer, when there is one, becomes a
    chunk if its trimmed text is non-empty and longer than 50. *)
Definition flush (filename : str) (st : state) : list chunk :=
  match current_chunk st with
  | [] => chunks st
  | _ =>
      let chunk_text := strip (join [newline] (current_chunk st)) in
      if negb (bool_decide (chunk_text = [])) && (50 <? length chunk_text)%nat
      then chunks st ++ [Chunk chunk_text (current_header st) filename]
      else chunks st
  end.

(** [while header_stack and header_stack[-1][0] >= level:
    header_stack.pop()]; every turn removes one entry, so the length of
    the stack is fuel enough. *)
Fixpoint pop_closed (fuel : nat) (level : nat)
    (header_stack : list (nat * str)) : list (nat * str) :=
  match fuel with
  | O => header_stack
  | S fuel' =>
      match last header_stack with
      | Some top =>
          if (level <=? top.1)%nat
          then pop_closed fuel' level (removelast header_stack)
          else header_stack
      | None => header_stack
      end
  end.

(** One turn of the [for] loop. *)
Definition step (filename : str) (st : state) (line : str) : state :=
  match header_match line with
  | Some (g1, g2) =>
      let chunks' := flush filename st in
      let level := length g1 in
      let header_text := g2 in
      let stack :=
        pop_closed (length (header_stack st)) level (header_stack st)
        ++ [(level, header_text)] in
      State chunks' [line] (join (py " > ") (stack.*2)) stack
  | None =>
      State (chunks st) (current_chunk st ++ [line]) (current_header st)
        (header_stack st)
  end.

Definition init (filename : str) : state := State [] [] filename [].

Definition run (filename : str) (lines : list str) : state :=
  fold_left (step filename) lines (init filename).

Definition chunk_markdown (content filename : str) : list chunk :=
  flush filename (run filename (split_lines content)).

(** ** Notions used to state what the chunker does *)

(** Level and title of a header line. *)
Definition header_of (line : str) : option (nat * str) :=
  (λ g, (length g.1, g.2)) <$> header_match line.

Definition is_header (line : str) : bool :=
  bool_decide (is_Some (header_match line)).

(** The shape the header pattern asks of a line: 1 to 4 hashes, then
    whitespace, then a title. *)
Definition header_shape (line : str) : Prop :=
  ∃ hashes ws title,
    line = hashes ++ ws ++ title
    ∧ 1 ≤ length hashes ≤ 4 ∧ Forall (λ c, c = hash) hashes
    ∧ ws ≠ [] ∧ Forall (λ c, isspace c = true) ws
    ∧ title ≠ [].

(** Among the headers met so far, in order, the open ones: a header is
    closed by any later header of the same or a smaller level. *)
Fixpoint open_headers (hs : list (nat * str)) : list (nat * str) :=
  match hs with
  | [] => []
  | h :: rest =>
      if forallb (λ h', h.1 <? h'.1) rest then h :: open_headers rest
      else open_headers rest
  end.

(** The header path after the lines [seen]: the titles of the open
    headers, outermost first, or the file name when there is none. *)
Definition path_of (filename : str) (seen : list str) : str :=
  match open_headers (omap header_of seen) with
  | [] => filename
  | hs => join (py " > ") (hs.*2)
  end.

Definition increasing (stack : list (nat * str)) : Prop :=
  StronglySorted (λ a b, a.1 < b.1) stack.

(** The buffers of the loop before trimming and filtering: [closed] are
    the finished ones, [open] is the one being filled. *)
Record cut := Cut { closed : list (list str); open : list str }.

Definition some_buffer (buf : list str) : list (list str) :=
  match buf with [] => [] | _ => [buf] end.

Definition cut_step (c : cut) (line : str) : cut :=
  if is_header line then Cut (closed c ++ some_buffer (open c)) [line]
  else Cut (closed c) (open c ++ [line]).

Definition cut_of (lines : list str) : cut :=
  fold_left cut_step lines (Cut [] []).

(** The document cut before each header line. *)
Definition segments (lines : list str) : list (list str) :=
  closed (cut_of lines) ++ some_buffer (open (cut_of lines)).

(** The text a buffer would be stored with, and whether it is kept. *)
Definition text_of (buf : list str) : str := strip (join [newline] buf).

Definition kept (buf : list str) : bool := (50 <? length (text_of buf))%nat.

(** The reading of "the chunk texts give the document back": the lines
    of the texts of the chunks, one chunk after the other, are the lines
    of the buffers that were not dropped. *)
Definition texts_rebuild_lines (content filename : str) : Prop :=
  concat (split_lines ∘ text <$> chunk_markdown content filename)
  = concat (filter (λ buf, kept buf = true) (segments (split_lines content))).

(** [c] is what the chunker makes of a run [seg] of the lines: its
    trimmed text, under the header path at the first line of [seg]. *)
Definition chunk_from (filename : str) (lines : list str) (c : chunk) : Prop :=
  ∃ pre seg post,
    lines = pre ++ seg ++ post ∧ seg ≠ []
    ∧ text c = text_of seg
    ∧ header c = path_of filename (pre ++ take 1 seg)
    ∧ source c = filename.

Definition starts_with_header (seg : list str) : Prop :=
  ∃ line rest, seg = line :: rest ∧ is_header line = true.

(** The nesting example read on its literal input: a first chunk under
    "A > B" whose text starts with "## B", then a chunk under "A > C". *)
Definition nesting_example (filename : str) : Prop :=
  ∃ c1 c2 rest tail,
    chunk_markdown (py "# A
## B
text
## C
more") filename = c1 :: c2 :: rest
    ∧ header c1 = py "A > B" ∧ text c1 = py "## B" ++ tail
    ∧ header c2 = py "A > C".

(** ** Relevance *)

(** A distance as the query tool can meet it: [None], the integer 0 of
    the placeholder list, or a float reported by the store. *)
Inductive distance := Absent | Zero | Float (f : float).

(** The truth value Python gives it. *)
Definition truthy (d : distance) : bool :=
  match d with
  | Absent | Zero => false
  | Float f => negb (PrimFloat.eqb f 0%float)
  end.

(** [1 - (distance / 2) if distance else 1.0]. *)
Definition relevance (d : distance) : float :=
  if truthy d then
    match d with
    | Float f => PrimFloat.sub 1%float (PrimFloat.div f 2%float)
    | _ => 1%float
    end
  else 1%float.

(** ** The vector store and the two command-line tools *)

(** The [header]/[source] dictionary stored beside each document. *)
Record metadata := Metadata { meta_header : str; meta_source : str }.

Record document := Document {
  doc_id : str;
  doc_text : str;
  doc_meta : metadata
}.

(** What [collection.query] answers, for the one query text sent. An
    empty outer list also stands for [None]: the tools only test these
    fields for truth or take their element 0. Taking element 0 raises
    on both, [TypeError] on [None] and [IndexError] on the empty list;
    [query] below raises under the first name for both. *)
Record query_results := QueryResults {
  documents : list (list str);
  metadatas : list (list metadata);
  distances : list (list distance)
}.

(** The persistent store (collections by name) and the standard output,
    one entry per [print] call. *)
Record world := World {
  store : gmap str (list document);
  stdout : list str
}.

Inductive result (A : Type) :=
  | Ok (a : A)
  | SysExit (code : nat)
  | Raised (exc : str).
Arguments Ok {A} a.
Arguments SysExit {A} code.
Arguments Raised {A} exc.

(** A command reads and updates the world and returns, exits or
    raises. *)
Definition M (A : Type) : Type := world → result A * world.

#[export] Instance M_ret : MRet M := λ A a w, (Ok a, w).

#[export] Instance M_bind : MBind M := λ A B k m w,
  match m w with
  | (Ok a, w') => k a w'
  | (SysExit c, w') => (SysExit c, w')
  | (Raised e, w') => (Raised e, w')
  end.

Definition raise {A} (exc : str) : M A := λ w, (Raised exc, w).

Definition sys_exit {A} (code : nat) : M A := λ w, (SysExit code, w).

(** [try: body except Exception: handler]; [SystemExit] is not an
    [Exception] and passes through. *)
Definition try_except {A} (body handler : M A) : M A := λ w,
  match body w with
  | (Raised _, w') => handler w'
  | r => r
  end.

Definition print (line : str) : M unit := λ w,
  (Ok (), World (store w) (stdout w ++ [line])).

Definition for_each {A} (f : A → M unit) : list A → M unit :=
  fix go l := match l with [] => mret () | a :: l' => f a;; go l' end.

Definition collection_name : str := py "bug-fix-skills".

Definition delete_collection (name : str) : M unit := λ w,
  match store w !! name with
  | Some _ => (Ok (), World (delete name (store w)) (stdout w))
  | None => (Raised (py "NotFoundError"), w)
  end.

Definition create_collection (name : str) : M unit := λ w,
  match store w !! name with
  | Some _ => (Raised (py "UniqueConstraintError"), w)
  | None => (Ok (), World (<[name := []]> (store w)) (stdout w))
  end.

(** [client.get_collection(name)]: the documents it holds. *)
Definition get_collection (name : str) : M (list document) := λ w,
  match store w !! name with
  | Some docs => (Ok docs, w)
  | None => (Raised (py "NotFoundError"), w)
  end.

(** [collection.add(documents=..., metadatas=..., ids=...)] on the
    collection [name]. *)
Definition collection_add (name : str) (docs : list document) : M unit := λ w,
  match store w !! name with
  | Some old => (Ok (), World (<[name := old ++ docs]> (store w)) (stdout w))
  | None => (Raised (py "NotFoundError"), w)
  end.

Definition pynat (n : nat) : str := py (pretty n).

(** [enumerate(l)], counting from [i]. *)
Fixpoint enumerate_from {A} (i : nat) (l : list A) : list (nat * A) :=
  match l with
  | [] => []
  | a :: l' => (i, a) :: enumerate_from (S i) l'
  end.

(** [zip] of three lists stops with the shortest. *)
Fixpoint zip3 {A B C} (la : list A) (lb : list B) (lc : list C)
    : list (A * B * C) :=
  match la, lb, lc with
  | a :: la', b :: lb', c :: lc' => (a, b, c) :: zip3 la' lb' lc'
  | _, _, _ => []
  end.

(** The exact value [m * 2^e] rounded to an integer, ties to even. *)
Definition round_half_even (m : positive) (e : Z) : Z :=
  if (0 <=? e)%Z then (Z.pos m * 2 ^ e)%Z
  else
    let d := (2 ^ (- e))%Z in
    let q := (Z.pos m / d)%Z in
    let r := (Z.pos m mod d)%Z in
    match (2 * r ?= d)%Z with
    | Lt => q
    | Gt => (q + 1)%Z
    | Eq => if Z.even q then q else (q + 1)%Z
    end.

(** [f"{x:.0%}"]: [x] times 100 (in binary64), printed with no digit
    after the point and a percent sign. *)
Definition format_percent (x : float) : str :=
  match Prim2SF (PrimFloat.mul x 100%float) with
  | S754_nan => py "nan%"
  | S754_infinity s => if s then py "-inf%" else py "inf%"
  | S754_zero s => if s then py "-0%" else py "0%"
  | S754_finite s m e =>
      (if s then py "-" else []) ++ py (pretty (round_half_even m e))
      ++ py "%"
  end.

Definition relevance_line (d : distance) : str :=
  py "    Relevance: " ++ format_percent (relevance d).

(** The body of the [for] loop of [query]: what its five [print] calls
    write for the hit number [i] (counted from 0), in order. *)
Definition result_block (item : nat * (str * metadata * distance))
    : list str :=
  let '(i, (doc, meta, distance)) := item in
  let lines := split_lines doc in
  let preview := join [newline] (take 15 lines) in
  [ [newline] ++ py "[" ++ pynat (i + 1) ++ py "] "
    ++ meta_source meta ++ py " > " ++ meta_header meta;
    relevance_line distance;
    replicate 60 45%N;
    if (15 <? length lines)%nat
    then preview ++ [newline] ++ py "... ("
         ++ pynat (length lines - 15) ++ py " more lines)"
    else preview;
    [] ].

(** The [for md_file in SKILLS_DIR.glob("*.md")] loop of [main]. *)
Fixpoint chunk_files (files : list (str * str)) (all_chunks : list chunk)
    : M (list chunk) :=
  match files with
  | [] => mret all_chunks
  | (name, content) :: rest =>
      print (py "Processing: " ++ name);;
      let chunks := chunk_markdown content name in
      print (py "  -> " ++ pynat (length chunks) ++ py " chunks");;
      chunk_files rest (all_chunks ++ chunks)
  end.

Section Tools.

(** The similarity search of the store: given the documents of a
    collection, a query text and [n_results]. Embedding and ranking are
    the store's business. *)
Variable search : list document → str → nat → query_results.

(** [main] of [index-skills.py], on the files that
    [SKILLS_DIR.glob("*.md")] yields, each with its name and text.
    Creating the store directory and opening the client leave the
    collections and the output as they are. The files are given as
    read and the store answers every call: a [read_text], an [add] or
    a [query] that fails for a reason of its own ends the program with
    that error, and is not a run of this function. *)
Definition index_main (files : list (str * str)) : M unit :=
  try_except
    (delete_collection collection_name;;
     print (py "Deleted existing collection"))
    (mret ());;
  create_collection collection_name;;
  all_chunks ← chunk_files files [];
  match all_chunks with
  | [] => print (py "No chunks found!")
  | _ =>
      let docs := (λ '(i, c),
        Document (py "chunk_" ++ pynat i) (text c)
          (Metadata (header c) (source c))) <$> enumerate_from 0 all_chunks in
      collection_add collection_name docs;;
      print ([newline] ++ py "Indexed " ++ pynat (length all_chunks)
             ++ py " chunks into 'bug-fix-skills' collection");;
      print ([newline]
             ++ py "--- Test Query: 'import error module not found' ---");;
      stored ← get_collection collection_name;
      let results := search stored (py "import error module not found") 3 in
      match documents results, metadatas results with
      | docs0 :: _, metas0 :: _ =>
          for_each (λ '(i, (doc, meta)),
              print ([newline] ++ py "[" ++ pynat (i + 1) ++ py "] "
                     ++ meta_source meta ++ py " > " ++ meta_header meta);;
              print (py "    " ++ take 150 doc ++ py "..."))
            (enumerate_from 0 (zip docs0 metas0))
      | _, _ => mret ()
      end
  end.

(** [query(query_text, n_results)] of [query-skills.py]. *)
Definition query (query_text : str) (n_results : nat) : M unit :=
  stored ← try_except (get_collection collection_name)
    (print (py "Error: Collection 'bug-fix-skills' not found.");;
     print (py "Run 'python scripts/index-skills.py' first to index the documents.");;
     sys_exit 1);
  let results := search stored query_text n_results in
  match documents results with
  | [] | [] :: _ => print (py "No results found.")
  | docs0 :: _ =>
      print (py "Query: " ++ query_text ++ [newline]);;
      print (replicate 60 61%N);;
      metas0 ← match metadatas results with
               | m :: _ => mret m
               | [] => raise (py "TypeError")
               end;
      let dists0 := match distances results with
                    | d :: _ => d
                    | [] => replicate (length docs0) Zero
                    end in
      for_each (λ item, for_each print (result_block item))
        (enumerate_from 0 (zip3 docs0 metas0 dists0))
  end.

(** [main] of [query-skills.py] on [sys.argv]. *)
Definition query_main (argv : list str) : M unit :=
  if (length argv <? 2)%nat then
    print (py "Usage: python query-skills.py <query>");;
    print (py "Example: python query-skills.py 'module not found import error'");;
    sys_exit 1
  else query (join (py " ") (drop 1 argv)) 5.

End Tools.

(** ** Notions used to state further properties *)

(** [piece] occurs in [s] as a contiguous run of characters. *)
Definition substring (piece s : str) : Prop :=
  ∃ before after, s = before ++ piece ++ after.

(** The number of hashes a string starts with. *)
Fixpoint count_hashes (s : str) : nat :=
  match s with
  | c :: s' => if is_hash c then S (count_hashes s') else 0
  | [] => 0
  end.

(** The title found in what follows the first whitespace character
    after the hashes: that text without its leading whitespace, or its
    last character when it is whitespace only. *)
Definition title_after (s : str) : option str :=
  match lstrip s with
  | [] => (λ c, [c]) <$> last s
  | t => Some t
  end.

(** The header pattern read in one pass, without backtracking. *)
Definition header_direct (line : str) : option (str * str) :=
  let k := count_hashes line in
  if bool_decide (1 ≤ k ≤ 4) then
    match drop k line with
    | c :: s' =>
        if isspace c then (λ t, (take k line, t)) <$> title_after s'
        else None
    | [] => None
    end
  else None.

(** The buffers, each with the header path it would be stored under:
    the path after the lines before the buffer and its first line. *)
Fixpoint with_paths (filename : str) (seen : list str)
    (segs : list (list str)) : list (list str * str) :=
  match segs with
  | [] => []
  | seg :: rest =>
      (seg, path_of filename (seen ++ take 1 seg))
      :: with_paths filename (seen ++ seg) rest
  end.

(** The chunk of a buffer and its path, when the buffer is kept. *)
Definition chunk_of (filename : str) (sp : list str * str) : option chunk :=
  if kept sp.1 then Some (Chunk (text_of sp.1) sp.2 filename) else None.

(** What the chunker returns, read off the cut of the document. *)
Definition chunks_of_segments (filename : str) (lines : list str)
    : list chunk :=
  omap (chunk_of filename) (with_paths filename [] (segments lines)).

(** The [pieces] occur in [s] one after the other, without overlap. *)
Fixpoint pieces_in_order (pieces : list str) (s : str) : Prop :=
  match pieces with
  | [] => True
  | piece :: rest =>
      ∃ before after,
        s = before ++ piece ++ after ∧ pieces_in_order rest after
  end.

(** All chunks of the files, in the order [main] collects them. *)
Definition all_chunks_of (files : list (str * str)) : list chunk :=
  concat ((λ f, chunk_markdown f.2 f.1) <$> files).

(** The documents [main] hands to [collection.add] for these chunks. *)
Definition documents_of (all_chunks : list chunk) : list document :=
  (λ '(i, c),
     Document (py "chunk_" ++ pynat i) (text c)
       (Metadata (header c) (source c))) <$> enumerate_from 0 all_chunks.

(** * Examples *)

Example header_match_ex1 :
  header_match (py "## Setup  steps") = Some (py "##", py "Setup  steps").
Proof. reflexivity. Qed.

Example header_match_ex2 : header_match (py "##### deep") = None.
Proof. reflexivity. Qed.

Example header_match_ex3 : header_match (py "#  ") = Some (py "#", py " ").
Proof. reflexivity. Qed.

Example header_match_ex4 : header_match (py "# ") = None.
Proof. reflexivity. Qed.

Example chunk_markdown_ex1 :
  chunk_markdown
    (py "# A
### C
0123456789012345678901234567890123456789012345678901234567890123456789")
    (py "f.md")
  = [Chunk (py "### C
0123456789012345678901234567890123456789012345678901234567890123456789")
       (py "A > C") (py "f.md")].
Proof. reflexivity. Qed.

(** * Strings *)

Lemma split_from_nonempty cur s : split_from cur s ≠ [].
Proof.
  revert cur; induction s as [|c s IH]; intros cur; simpl; [done|].
  destruct (c =? newline)%N; [done | apply IH].
Qed.

Lemma split_from_app_newline cur a b :
  split_from cur (a ++ newline :: b) = split_from cur a ++ split_lines b.
Proof.
  revert cur; induction a as [|c a IH]; intros cur; simpl; [done|].
  destruct (c =? newline)%N; simpl; by rewrite IH.
Qed.

Lemma split_from_no_newline cur t :
  newline ∉ t → split_from cur t = [cur ++ t].
Proof.
  revert cur; induction t as [|c t IH]; intros cur Hnl; simpl.
  - by rewrite app_nil_r.
  - apply not_elem_of_cons in Hnl as [Hc Ht].
    destruct (N.eqb_spec c newline) as [->|_]; [done|].
    by rewrite IH, <- app_assoc.
Qed.

Lemma split_from_lines_no_newline cur s line :
  newline ∉ cur → line ∈ split_from cur s → newline ∉ line.
Proof.
  revert cur; induction s as [|c s IH]; intros cur Hcur; simpl.
  - by intros ->%list_elem_of_singleton.
  - destruct (N.eqb_spec c newline) as [->|Hc].
    + intros [->|Hin]%elem_of_cons; [done|].
      eapply IH; [|done]. apply not_elem_of_nil.
    + apply IH. rewrite elem_of_app, list_elem_of_singleton.
      intros [?|?]; [done | by subst c].
Qed.

Lemma split_lines_no_newline content line :
  line ∈ split_lines content → newline ∉ line.
Proof. apply split_from_lines_no_newline, not_elem_of_nil. Qed.

Lemma join_cons sep p q rest :
  join sep (p :: q :: rest) = p ++ sep ++ join sep (q :: rest).
Proof. done. Qed.

Lemma join_snoc sep parts p :
  parts ≠ [] → join sep (parts ++ [p]) = join sep parts ++ sep ++ p.
Proof.
  induction parts as [|q [|q' parts] IH]; intros Hne; [done|done|].
  change ((q :: q' :: parts) ++ [p]) with (q :: q' :: (parts ++ [p])).
  rewrite !join_cons. change (q' :: parts ++ [p]) with ((q' :: parts) ++ [p]).
  rewrite IH by done. by rewrite <- !app_assoc.
Qed.

(** Joining the lines with a newline gives the text back. *)
Lemma join_split_from cur s : join [newline] (split_from cur s) = cur ++ s.
Proof.
  revert cur; induction s as [|c s IH]; intros cur; simpl.
  - by rewrite app_nil_r.
  - destruct (N.eqb_spec c newline) as [->|_].
    + specialize (IH []). pose proof (split_from_nonempty [] s) as Hne.
      destruct (split_from [] s) as [|q rest]; [done|].
      rewrite join_cons, IH. done.
    + by rewrite IH, <- app_assoc.
Qed.

Lemma join_split_lines s : join [newline] (split_lines s) = s.
Proof. apply join_split_from. Qed.

Lemma lstrip_suffix s : lstrip s `suffix_of` s.
Proof.
  induction s as [|c s IH]; simpl; [done|].
  destruct (isspace c); [by apply suffix_cons_r | done].
Qed.

Lemma lstrip_head s c t : lstrip s = c :: t → isspace c = false.
Proof.
  induction s as [|d s IH]; simpl; [done|].
  destruct (isspace d) eqn:Hd; [done|]. by intros [= <- _].
Qed.

Lemma lstrip_id s : (∀ c t, s = c :: t → isspace c = false) → lstrip s = s.
Proof.
  destruct s as [|c t]; [done|]. intros H; simpl. by rewrite (H c t eq_refl).
Qed.

Lemma lstrip_idemp s : lstrip (lstrip s) = lstrip s.
Proof. apply lstrip_id. intros c t. apply lstrip_head. Qed.

Lemma lstrip_all_space s : Forall (λ c, isspace c = true) s → lstrip s = [].
Proof. induction 1 as [|c s Hc _ IH]; simpl; [done|]. by rewrite Hc. Qed.

Lemma rstrip_prefix s : rstrip s `prefix_of` s.
Proof.
  unfold rstrip. destruct (lstrip_suffix (rev s)) as [k Hk].
  exists (rev k). apply (f_equal (@rev char)) in Hk.
  by rewrite rev_involutive, rev_app_distr in Hk.
Qed.

Lemma strip_idemp s : strip (strip s) = strip s.
Proof.
  unfold strip.
  assert (Hl : lstrip (rstrip (lstrip s)) = rstrip (lstrip s)).
  { apply lstrip_id. intros c t Hct.
    destruct (rstrip_prefix (lstrip s)) as [k Hk]. rewrite Hct in Hk.
    apply (lstrip_head s c (t ++ k)). exact Hk. }
  rewrite Hl. unfold rstrip. by rewrite rev_involutive, lstrip_idemp.
Qed.

Lemma strip_all_space s : Forall (λ c, isspace c = true) s → strip s = [].
Proof. intros H. unfold strip. by rewrite (lstrip_all_space s H). Qed.

Lemma strip_length s : length (strip s) ≤ length s.
Proof.
  unfold strip.
  etrans; [apply prefix_length, rstrip_prefix|].
  apply suffix_length, lstrip_suffix.
Qed.

(** * The header pattern *)

Lemma is_hash_true c : is_hash c = true ↔ c = hash.
Proof. apply N.eqb_eq. Qed.

Lemma dot_true c : dot c = true ↔ c ≠ newline.
Proof. unfold dot. rewrite negb_true_iff. apply N.eqb_neq. Qed.

Lemma isspace_hash : isspace hash = false.
Proof. done. Qed.

(** What a successful [greedy] did: it took a run [m] of [p]s of an
    allowed length and the rest of the pattern accepted what was left. *)
Lemma greedy_sound {A} p lo hi taken s (k : str → str → option A) r :
  greedy p lo hi taken s k = Some r →
  ∃ m rest, s = m ++ rest ∧ Forall (λ c, p c = true) m
    ∧ lo ≤ length m ∧ (∀ h, hi = Some h → length m ≤ h)
    ∧ k (taken ++ m) rest = Some r.
Proof.
  revert lo hi taken.
  assert (Hstop : ∀ lo hi taken s,
    (if lo is O then k taken s else None) = Some r →
    ∃ m rest, s = m ++ rest ∧ Forall (λ c, p c = true) m
      ∧ lo ≤ length m ∧ (∀ h, hi = Some h → length m ≤ h)
      ∧ k (taken ++ m) rest = Some r).
  { intros [|lo] hi taken s' H; [|done].
    exists [], s'. rewrite app_nil_r. repeat split; auto; simpl; lia. }
  induction s as [|c s IH]; intros lo hi taken; simpl; [apply Hstop|].
  destruct (p c) eqn:Hp; simpl; [|apply Hstop].
  destruct hi as [[|h]|]; simpl; [apply Hstop| |].
  - destruct (greedy p (pred lo) (Some h) (taken ++ [c]) s k) eqn:Hg.
    + intros [= ->]. apply IH in Hg as (m & rest & -> & Hm & Hlo & Hhi & Hk).
      exists (c :: m), rest. rewrite <- app_assoc in Hk.
      repeat split; auto; simpl; [lia|].
      intros ? [= <-]. specialize (Hhi h eq_refl). lia.
    + apply Hstop.
  - destruct (greedy p (pred lo) None (taken ++ [c]) s k) eqn:Hg.
    + intros [= ->]. apply IH in Hg as (m & rest & -> & Hm & Hlo & Hhi & Hk).
      exists (c :: m), rest. rewrite <- app_assoc in Hk.
      repeat split; auto; simpl; [lia|done].
    + apply Hstop.
Qed.

(** Backtracking misses nothing: if some allowed run lets the rest of
    the pattern succeed, [greedy] succeeds (maybe with a longer run). *)
Lemma greedy_complete {A} p lo hi taken m rest (k : str → str → option A) :
  Forall (λ c, p c = true) m →
  lo ≤ length m → (∀ h, hi = Some h → length m ≤ h) →
  is_Some (k (taken ++ m) rest) →
  is_Some (greedy p lo hi taken (m ++ rest) k).
Proof.
  intros Hm. revert lo hi taken.
  induction Hm as [|c m Hc Hm IH]; intros lo hi taken Hlo Hhi Hk.
  - simpl in *. assert (lo = 0) as -> by lia. rewrite app_nil_r in Hk.
    destruct rest as [|c s]; simpl; [done|].
    destruct (p c && _); [|done].
    by destruct (greedy p _ _ _ s k).
  - simpl in *. rewrite Hc. simpl.
    assert (Hrec : is_Some (greedy p (pred lo) (pred <$> hi) (taken ++ [c])
                     (m ++ rest) k)).
    { apply IH; [lia| |by rewrite <- app_assoc].
      intros h Hh. destruct hi as [h'|]; [|done]. simpl in Hh.
      injection Hh as <-. specialize (Hhi h' eq_refl). lia. }
    destruct hi as [[|h]|].
    + specialize (Hhi 0 eq_refl). lia.
    + by destruct Hrec as [r ->].
    + by destruct Hrec as [r ->].
Qed.

(** A match splits the line into the hashes, the whitespace, the title
    and, at most, a closing newline. *)
Lemma header_match_sound line g1 g2 :
  header_match line = Some (g1, g2) →
  ∃ ws tail,
    line = g1 ++ ws ++ g2 ++ tail
    ∧ 1 ≤ length g1 ≤ 4 ∧ Forall (λ c, c = hash) g1
    ∧ ws ≠ [] ∧ Forall (λ c, isspace c = true) ws
    ∧ g2 ≠ [] ∧ (newline ∉ g2)
    ∧ (tail = [] ∨ tail = [newline]).
Proof.
  unfold header_match. intros H.
  apply greedy_sound in H as (m1 & r1 & -> & Hm1 & Hlo1 & Hhi1 & H).
  apply greedy_sound in H as (ws & r2 & -> & Hws & Hlo2 & _ & H).
  apply greedy_sound in H as (m3 & r3 & -> & Hm3 & Hlo3 & _ & H).
  simpl in H. destruct (at_end r3) eqn:Hend; [|done].
  injection H as <- <-.
  exists ws, r3. repeat split; try done.
  - by apply Hhi1.
  - eapply Forall_impl; [done|]. intros c. apply is_hash_true.
  - intros ->. simpl in Hlo2. lia.
  - intros ->. simpl in Hlo3. lia.
  - rewrite list_elem_of_In. intros Hin. rewrite Forall_forall in Hm3.
    apply list_elem_of_In, Hm3, dot_true in Hin. done.
  - destruct r3 as [|c [|c' r3]]; simpl in Hend; [by left| |done].
    right. by apply N.eqb_eq in Hend as ->.
Qed.

Lemma header_match_complete hashes ws title :
  1 ≤ length hashes ≤ 4 → Forall (λ c, c = hash) hashes →
  ws ≠ [] → Forall (λ c, isspace c = true) ws →
  title ≠ [] → newline ∉ title →
  is_Some (header_match (hashes ++ ws ++ title)).
Proof.
  intros [Hh1 Hh4] Hh Hws1 Hws Ht1 Ht.
  unfold header_match. apply greedy_complete; simpl.
  - eapply Forall_impl; [done|]. intros c. apply is_hash_true.
  - done.
  - by intros ? [= <-].
  - apply greedy_complete; simpl; [done| |done|].
    + destruct ws; [done|simpl; lia].
    + rewrite <- (app_nil_r title). apply greedy_complete; simpl.
      * apply Forall_forall. intros c Hc. apply dot_true. by intros ->.
      * destruct title; [done|simpl; lia].
      * done.
      * done.
Qed.

Lemma header_match_shape line :
  newline ∉ line → (is_Some (header_match line) ↔ header_shape line).
Proof.
  intros Hnl. split.
  - intros [[g1 g2] H]. apply header_match_sound in H
      as (ws & tail & Hline & Hlen & Hh & Hws1 & Hws & Hg2 & _ & Htail).
    exists g1, ws, g2. repeat split; try done; try apply Hlen.
    destruct Htail as [->| ->]; [by rewrite app_nil_r in Hline|].
    exfalso. apply Hnl. rewrite Hline, !elem_of_app, list_elem_of_singleton.
    auto.
  - intros (hashes & ws & title & -> & Hlen & Hh & Hws1 & Hws & Ht).
    apply header_match_complete; try done.
    intros Hin. apply Hnl. rewrite !elem_of_app. auto.
Qed.

(** Five or more hashes never open a header. *)
Lemma header_match_many_hashes n rest :
  5 ≤ n → header_match (replicate n hash ++ rest) = None.
Proof.
  intros Hn. destruct (header_match _) as [[g1 g2]|] eqn:H; [|done].
  apply header_match_sound in H
    as (ws & tail & Hline & Hlen & _ & Hws1 & Hws & _).
  destruct ws as [|w ws]; [done|]. apply Forall_cons in Hws as [Hw _].
  assert (Hl : (replicate n hash ++ rest) !! length g1 = Some hash).
  { rewrite lookup_app_l by (rewrite length_replicate; lia).
    apply lookup_replicate_2. lia. }
  rewrite Hline in Hl. rewrite lookup_app_r in Hl by lia.
  rewrite Nat.sub_diag in Hl. simpl in Hl. injection Hl as ->.
  by rewrite isspace_hash in Hw.
Qed.

(** A header line starts with a hash. *)
Lemma header_match_head line :
  is_Some (header_match line) → ∃ rest, line = hash :: rest.
Proof.
  intros [[g1 g2] H]. apply header_match_sound in H
    as (ws & tail & -> & Hlen & Hh & _).
  destruct g1 as [|c g1]; [simpl in Hlen; lia|].
  apply Forall_cons in Hh as [-> _]. by eexists.
Qed.

Lemma header_of_Some line h :
  header_of line = Some h →
  ∃ g1, header_match line = Some (g1, h.2) ∧ h.1 = length g1.
Proof.
  unfold header_of. destruct (header_match line) as [[g1 g2]|]; [|done].
  intros [= <-]. by exists g1.
Qed.

Lemma header_of_level line h : header_of line = Some h → 1 ≤ h.1 ≤ 4.
Proof.
  intros (g1 & H & ->)%header_of_Some.
  by apply header_match_sound in H as (? & ? & _ & ? & _).
Qed.

Lemma is_header_true line : is_header line = true ↔ is_Some (header_of line).
Proof.
  unfold is_header, header_of. rewrite bool_decide_eq_true, fmap_is_Some. done.
Qed.

Lemma is_header_false line : is_header line = false ↔ header_of line = None.
Proof.
  rewrite <- not_true_iff_false, is_header_true, <- eq_None_not_Some. done.
Qed.

(** * The header stack *)

(** The [while] loop ends within its fuel: it stops on an empty stack or
    below a smaller level, having removed only entries of level at least
    [level], from the top. *)
Lemma pop_closed_spec fuel level stack :
  length stack ≤ fuel →
  ∃ popped,
    stack = pop_closed fuel level stack ++ popped
    ∧ Forall (λ h, level ≤ h.1) popped
    ∧ ∀ top, last (pop_closed fuel level stack) = Some top → top.1 < level.
Proof.
  revert stack. induction fuel as [|fuel IH]; intros stack Hlen.
  - destruct stack; [|simpl in Hlen; lia]. by exists [].
  - simpl. destruct (last stack) as [top|] eqn:Hlast.
    + destruct (Nat.leb_spec level top.1) as [Hle|Hlt].
      * apply last_Some in Hlast as [below ->].
        rewrite removelast_last. rewrite length_app in Hlen. simpl in Hlen.
        destruct (IH below) as (popped & Hb & Hp & Htop); [lia|].
        exists (popped ++ [top]). split_and!; [| |done].
        2: { apply Forall_app. split; [done|]. by constructor. }
        rewrite app_assoc. by rewrite <- Hb.
      * exists []. rewrite app_nil_r. split_and!; [done|done|].
        intros top'. rewrite Hlast. by intros [= <-].
    + exists []. rewrite app_nil_r. split_and!; [done|done|].
      intros top'. by rewrite Hlast.
Qed.

(** More fuel than the length of the stack changes nothing. *)
Lemma pop_closed_fuel fuel level stack :
  length stack ≤ fuel →
  pop_closed fuel level stack = pop_closed (length stack) level stack.
Proof.
  revert stack. induction fuel as [|fuel IH]; intros stack Hlen.
  { by destruct stack; [|simpl in Hlen; lia]. }
  destruct stack as [|h stack _] using rev_ind; [done|].
  rewrite length_app in *. simpl in Hlen. rewrite Nat.add_1_r. simpl.
  rewrite last_snoc, removelast_last.
  destruct (level <=? h.1); [|done].
  rewrite IH by lia. done.
Qed.

Lemma filter_all {A} (P : A → Prop) `{∀ x, Decision (P x)} (l : list A) :
  Forall P l → filter P l = l.
Proof.
  induction 1 as [|x l Hx _ IH]; [done|].
  by rewrite filter_cons_True, IH.
Qed.

(** On a stack of increasing levels the loop removes exactly the entries
    of level at least [level]. *)
Lemma pop_closed_filter fuel level stack :
  increasing stack → length stack ≤ fuel →
  pop_closed fuel level stack = filter (λ h, h.1 < level) stack.
Proof.
  revert stack. induction fuel as [|fuel IH]; intros stack Hinc Hlen.
  - by destruct stack; [|simpl in Hlen; lia].
  - simpl. destruct (last stack) as [top|] eqn:Hlast.
    + apply last_Some in Hlast as [below ->].
      rewrite length_app in Hlen. simpl in Hlen.
      apply StronglySorted_app in Hinc as (Hlt & Hbelow & _).
      rewrite filter_app.
      destruct (Nat.leb_spec level top.1) as [Hle|Hlt'].
      * rewrite removelast_last, IH by (done || lia).
        rewrite (filter_cons_False _ top) by lia.
        by rewrite filter_nil, app_nil_r.
      * rewrite (filter_cons_True _ top) by lia. rewrite filter_nil.
        f_equal. symmetry. apply filter_all. apply Forall_forall.
        intros h Hh. specialize (Hlt h top Hh). simpl.
        etrans; [apply Hlt; by apply list_elem_of_singleton|done].
    + apply last_None in Hlast as ->. done.
Qed.

Lemma open_headers_sublist hs : open_headers hs `sublist_of` hs.
Proof.
  induction hs as [|h hs IH]; simpl; [done|].
  destruct (forallb _ hs); by constructor.
Qed.

Lemma open_headers_increasing hs : increasing (open_headers hs).
Proof.
  induction hs as [|h hs IH]; simpl; [constructor|].
  destruct (forallb _ hs) eqn:Hall; [|done].
  constructor; [done|]. apply Forall_forall. intros h' Hh'.
  rewrite forallb_forall in Hall. apply Nat.ltb_lt, Hall, list_elem_of_In.
  eapply elem_of_sublist; [done | apply open_headers_sublist].
Qed.

(** A new header closes the open headers of its level or deeper and
    becomes the innermost open one. *)
Lemma open_headers_snoc hs h :
  open_headers (hs ++ [h])
  = filter (λ x, x.1 < h.1) (open_headers hs) ++ [h].
Proof.
  induction hs as [|a hs IH]; simpl; [done|].
  rewrite forallb_app. simpl. rewrite andb_true_r, IH.
  destruct (forallb _ hs); simpl; [|done].
  destruct (Nat.ltb_spec a.1 h.1) as [Hlt|Hge].
  - by rewrite filter_cons_True.
  - rewrite filter_cons_False by lia. done.
Qed.

Lemma open_headers_snoc_pop hs h :
  open_headers (hs ++ [h])
  = pop_closed (length (open_headers hs)) h.1 (open_headers hs) ++ [h].
Proof.
  rewrite pop_closed_filter by (apply open_headers_increasing || done).
  apply open_headers_snoc.
Qed.

Lemma open_headers_nonempty hs h : open_headers (hs ++ [h]) ≠ [].
Proof. rewrite open_headers_snoc. by destruct (filter _ _). Qed.

(** Strictly increasing numbers drawn from [n] consecutive values are
    at most [n]. *)
Lemma increasing_bounded_length (l : list nat) a n :
  StronglySorted lt l → Forall (λ x, a ≤ x < a + n) l → length l ≤ n.
Proof.
  revert a n. induction l as [|x l IH]; intros a n Hs Hb; simpl; [lia|].
  apply StronglySorted_cons in Hs as [Hx Hs].
  apply Forall_cons in Hb as [Hxb Hb].
  destruct n as [|n]; [lia|].
  enough (length l ≤ n) by lia.
  apply (IH (S a)); [done|].
  rewrite Forall_forall in *. intros y Hy.
  specialize (Hx y Hy). specialize (Hb y Hy). lia.
Qed.

Lemma increasing_levels_length stack :
  increasing stack → Forall (λ h, 1 ≤ h.1 ≤ 4) stack → length stack ≤ 4.
Proof.
  intros Hinc Hlev. rewrite <- (length_fmap fst).
  apply (increasing_bounded_length _ 1 4).
  - by apply (StronglySorted_fmap fst (λ a b, a.1 < b.1)).
  - apply Forall_fmap. eapply Forall_impl; [done|]. simpl. lia.
Qed.

Lemma open_headers_levels lines :
  Forall (λ h, 1 ≤ h.1 ≤ 4) (open_headers (omap header_of lines)).
Proof.
  apply Forall_forall. intros h Hh.
  eapply elem_of_sublist in Hh; [|apply open_headers_sublist].
  apply list_elem_of_omap in Hh as (line & _ & Hline).
  by eapply header_of_level.
Qed.

(** * The loop of the chunker *)

Lemma run_snoc filename lines line :
  run filename (lines ++ [line]) = step filename (run filename lines) line.
Proof. unfold run. by rewrite fold_left_app. Qed.

Lemma step_header filename st line h :
  header_of line = Some h →
  step filename st line =
    let stack :=
      pop_closed (length (header_stack st)) h.1 (header_stack st) ++ [h] in
    State (flush filename st) [line] (join (py " > ") (stack.*2)) stack.
Proof.
  unfold header_of, step. destruct (header_match line) as [[g1 g2]|]; [|done].
  by intros [= <-].
Qed.

Lemma step_plain filename st line :
  header_of line = None →
  step filename st line =
    State (chunks st) (current_chunk st ++ [line]) (current_header st)
      (header_stack st).
Proof.
  unfold header_of, step. by destruct (header_match line) as [[g1 g2]|].
Qed.

(** The two tests of [flush] amount to the second one. *)
Lemma flush_eq filename st :
  flush filename st =
    chunks st ++
    omap (λ buf, if kept buf
                 then Some (Chunk (text_of buf) (current_header st) filename)
                 else None)
      (some_buffer (current_chunk st)).
Proof.
  unfold flush, kept, text_of. destruct (current_chunk st) as [|l buf]; simpl.
  { by rewrite app_nil_r. }
  set (t := strip _). destruct (Nat.ltb_spec 50 (length t)) as [Hlt|Hge].
  - rewrite bool_decide_eq_false_2; [done|].
    intros Ht. rewrite Ht in Hlt. simpl in Hlt. lia.
  - rewrite andb_false_r. by rewrite app_nil_r.
Qed.

Lemma flush_kept filename st buf :
  current_chunk st = buf → kept buf = true →
  flush filename st =
    chunks st ++ [Chunk (text_of buf) (current_header st) filename].
Proof.
  intros <- Hk. rewrite flush_eq.
  destruct (current_chunk st) as [|l ls]; [done|]. simpl. by rewrite Hk.
Qed.

Lemma elem_of_flush filename st c :
  c ∈ flush filename st ↔
  c ∈ chunks st
  ∨ (current_chunk st ≠ [] ∧ kept (current_chunk st) = true
     ∧ c = Chunk (text_of (current_chunk st)) (current_header st) filename).
Proof.
  rewrite flush_eq, elem_of_app.
  destruct (current_chunk st) as [|l buf] eqn:Hcur; simpl.
  - rewrite elem_of_nil. split; [intros [?|[]]; by left|].
    intros [?|(? & _)]; [by left|done].
  - destruct (kept (l :: buf)); simpl.
    + rewrite list_elem_of_singleton. split; [|intros [?|(_ & _ & ?)]; auto].
      intros [?|?]; [by left|by right].
    + rewrite elem_of_nil. split; [intros [?|[]]; by left|].
      intros [?|(_ & ? & _)]; [by left|done].
Qed.

Lemma path_of_snoc_plain filename seen line :
  header_of line = None →
  path_of filename (seen ++ [line]) = path_of filename seen.
Proof.
  intros H. unfold path_of. rewrite omap_app. simpl. rewrite H.
  by rewrite app_nil_r.
Qed.

(** The stack is the list of open headers of the lines read. *)
Lemma run_header_stack filename lines :
  header_stack (run filename lines) = open_headers (omap header_of lines).
Proof.
  induction lines as [|line lines IH] using rev_ind; [done|].
  rewrite run_snoc, omap_app. simpl.
  destruct (header_of line) as [h|] eqn:Hh.
  - rewrite (step_header _ _ _ h) by done. simpl.
    by rewrite IH, open_headers_snoc_pop.
  - rewrite step_plain by done. simpl. by rewrite app_nil_r.
Qed.

(** [current_header] is the path of the open headers. *)
Lemma run_current_header filename lines :
  current_header (run filename lines) = path_of filename lines.
Proof.
  induction lines as [|line lines IH] using rev_ind; [done|].
  rewrite run_snoc.
  destruct (header_of line) as [h|] eqn:Hh.
  - rewrite (step_header _ _ _ h) by done. simpl.
    rewrite run_header_stack, <- open_headers_snoc_pop.
    unfold path_of. rewrite omap_app. simpl. rewrite Hh. simpl.
    pose proof (open_headers_nonempty (omap header_of lines) h).
    by destruct (open_headers _).
  - rewrite step_plain, path_of_snoc_plain by done. done.
Qed.

(** The buffer is the end of the lines read, it is empty only before
    the first line, and no header has opened since its first line. *)
Lemma run_current_chunk filename lines :
  ∃ pre,
    lines = pre ++ current_chunk (run filename lines)
    ∧ (current_chunk (run filename lines) = [] → lines = [])
    ∧ path_of filename (pre ++ take 1 (current_chunk (run filename lines)))
      = path_of filename lines.
Proof.
  induction lines as [|line lines IH] using rev_ind.
  { by exists []. }
  destruct IH as (pre & Hpre & Hnil & Hpath). rewrite run_snoc.
  destruct (header_of line) as [h|] eqn:Hh.
  - rewrite (step_header _ _ _ h) by done. simpl.
    exists lines. split_and!; [done|done|done].
  - rewrite step_plain by done. simpl.
    exists pre. split_and!.
    + by rewrite app_assoc, <- Hpre.
    + by destruct (current_chunk _).
    + rewrite path_of_snoc_plain by done.
      destruct (current_chunk (run filename lines)) as [|l buf] eqn:Hcur.
      * rewrite Hnil in * by done. symmetry in Hpre.
        apply app_eq_nil in Hpre as [-> _].
        exact (path_of_snoc_plain filename [] line Hh).
      * done.
Qed.

Lemma chunk_from_mono filename lines more c :
  chunk_from filename lines c → chunk_from filename (lines ++ more) c.
Proof.
  intros (pre & seg & post & -> & ?). exists pre, seg, (post ++ more).
  by rewrite <- !app_assoc.
Qed.

Lemma flush_chunk_from filename lines c :
  Forall (chunk_from filename lines) (chunks (run filename lines)) →
  c ∈ flush filename (run filename lines) → chunk_from filename lines c.
Proof.
  intros Hall [Hc|(Hne & _ & ->)]%elem_of_flush.
  { by rewrite Forall_forall in Hall; apply Hall. }
  destruct (run_current_chunk filename lines) as (pre & Hpre & _ & Hpath).
  exists pre, (current_chunk (run filename lines)), [].
  rewrite app_nil_r. split_and!; try done. simpl.
  by rewrite run_current_header.
Qed.

(** Every chunk stored so far comes from a run of the lines read. *)
Lemma run_chunks_from filename lines :
  Forall (chunk_from filename lines) (chunks (run filename lines)).
Proof.
  induction lines as [|line lines IH] using rev_ind; [constructor|].
  rewrite run_snoc.
  destruct (header_of line) as [h|] eqn:Hh.
  - rewrite (step_header _ _ _ h) by done. simpl.
    apply Forall_forall. intros c Hc.
    by apply chunk_from_mono, flush_chunk_from.
  - rewrite step_plain by done. simpl.
    eapply Forall_impl; [done|]. intros c. apply chunk_from_mono.
Qed.

(** Every chunk stored is trimmed and longer than 50. *)
Lemma flush_long filename st :
  Forall (λ c, 50 < length (text c)) (chunks st) →
  Forall (λ c, 50 < length (text c)) (flush filename st).
Proof.
  intros H. rewrite flush_eq. apply Forall_app. split; [done|].
  destruct (current_chunk st) as [|l buf]; simpl; [constructor|].
  unfold kept. destruct (Nat.ltb_spec 50 (length (text_of (l :: buf))));
    simpl; repeat constructor. done.
Qed.

Lemma flush_trimmed filename st :
  Forall (λ c, strip (text c) = text c) (chunks st) →
  Forall (λ c, strip (text c) = text c) (flush filename st).
Proof.
  intros H. rewrite flush_eq. apply Forall_app. split; [done|].
  destruct (current_chunk st) as [|l buf]; simpl; [constructor|].
  destruct (kept _); simpl; repeat constructor. apply strip_idemp.
Qed.

Lemma run_chunks_good filename lines :
  Forall (λ c, 50 < length (text c)) (chunks (run filename lines))
  ∧ Forall (λ c, strip (text c) = text c) (chunks (run filename lines)).
Proof.
  induction lines as [|line lines [IH1 IH2]] using rev_ind.
  { split; constructor. }
  rewrite run_snoc.
  destruct (header_of line) as [h|] eqn:Hh.
  - rewrite (step_header _ _ _ h) by done. simpl.
    split; [by apply flush_long | by apply flush_trimmed].
  - rewrite step_plain by done. done.
Qed.

(** Without header lines the loop only fills the buffer. *)
Lemma run_no_header filename lines :
  Forall (λ line, header_match line = None) lines →
  run filename lines = State [] lines filename [].
Proof.
  induction lines as [|line lines IH] using rev_ind; intros H; [done|].
  apply Forall_app in H as [Hl Hline]. apply Forall_cons in Hline as [Hline _].
  rewrite run_snoc, step_plain, IH by (done || unfold header_of; by rewrite Hline).
  done.
Qed.

(** * The cut of the document *)

Lemma cut_of_snoc lines line :
  cut_of (lines ++ [line]) = cut_step (cut_of lines) line.
Proof. unfold cut_of. by rewrite fold_left_app. Qed.

Lemma concat_some_buffer buf : concat (some_buffer buf) = buf.
Proof. destruct buf; simpl; [done|]. by rewrite app_nil_r. Qed.

(** The buffers, in order, are the lines read: nothing is lost, moved
    or repeated. *)
Lemma cut_of_concat lines :
  concat (closed (cut_of lines)) ++ open (cut_of lines) = lines.
Proof.
  induction lines as [|line lines IH] using rev_ind; [done|].
  rewrite cut_of_snoc. unfold cut_step. destruct (is_header line); simpl.
  - by rewrite concat_app, concat_some_buffer, IH.
  - by rewrite app_assoc, IH.
Qed.

(** Buffers are not empty and hold no header line after their first. *)
Lemma cut_of_shape lines :
  Forall (λ seg, seg ≠ [] ∧ Forall (λ l, is_header l = false) (tail seg))
    (closed (cut_of lines))
  ∧ Forall (λ l, is_header l = false) (tail (open (cut_of lines))).
Proof.
  induction lines as [|line lines [IHc IHo]] using rev_ind.
  { split; constructor. }
  rewrite cut_of_snoc. unfold cut_step.
  destruct (is_header line) eqn:Hh; simpl.
  - split; [|constructor]. apply Forall_app. split; [done|].
    destruct (open (cut_of lines)); simpl; repeat constructor; done.
  - split; [done|]. destruct (open (cut_of lines)) as [|l buf]; simpl.
    + constructor.
    + apply Forall_app. split; [done|]. by repeat constructor.
Qed.

(** The buffer is empty only before the first line; every buffer after
    the first starts with a header line. *)
Lemma cut_of_starts lines :
  (open (cut_of lines) = [] → closed (cut_of lines) = [])
  ∧ Forall starts_with_header (tail (closed (cut_of lines)))
  ∧ (closed (cut_of lines) ≠ [] → starts_with_header (open (cut_of lines))).
Proof.
  induction lines as [|line lines (IHn & IHc & IHo)] using rev_ind.
  { split_and!; [done|constructor|done]. }
  rewrite cut_of_snoc. unfold cut_step.
  destruct (is_header line) eqn:Hh; simpl.
  - split_and!; [done| |intros _; by exists line, []].
    destruct (closed (cut_of lines)) as [|seg segs] eqn:Hcl; simpl.
    + by destruct (open (cut_of lines)); constructor.
    + apply Forall_app. split; [done|].
      destruct (open (cut_of lines)) as [|l buf] eqn:Hop; simpl.
      * constructor.
      * repeat constructor. by apply IHo.
  - split_and!; [by destruct (open (cut_of lines))|done|].
    intros Hne. destruct (IHo Hne) as (l & rest & -> & Hl).
    by exists l, (rest ++ [line]).
Qed.

Lemma segments_concat lines : concat (segments lines) = lines.
Proof.
  unfold segments. rewrite concat_app, concat_some_buffer.
  apply cut_of_concat.
Qed.

Lemma segments_shape lines :
  Forall (λ seg, seg ≠ [] ∧ Forall (λ l, is_header l = false) (tail seg))
    (segments lines).
Proof.
  unfold segments. destruct (cut_of_shape lines) as [Hc Ho].
  apply Forall_app. split; [done|].
  destruct (open (cut_of lines)); simpl; repeat constructor; done.
Qed.

Lemma segments_starts lines :
  Forall starts_with_header (tail (segments lines)).
Proof.
  unfold segments. destruct (cut_of_starts lines) as (Hn & Hc & Ho).
  destruct (closed (cut_of lines)) as [|seg segs] eqn:Hcl; simpl.
  - by destruct (open (cut_of lines)); constructor.
  - apply Forall_app. split; [done|].
    destruct (open (cut_of lines)) as [|l buf] eqn:Hop; simpl.
    + constructor.
    + repeat constructor. by apply Ho.
Qed.

Lemma fmap_text_flush filename st :
  text <$> flush filename st =
    (text <$> chunks st)
    ++ filter (λ t, 50 < length t) (text_of <$> some_buffer (current_chunk st)).
Proof.
  rewrite flush_eq, fmap_app. f_equal.
  destruct (current_chunk st) as [|l buf]; simpl; [done|].
  unfold kept. rewrite filter_cons, filter_nil.
  destruct (Nat.ltb_spec 50 (length (text_of (l :: buf)))).
  - by rewrite decide_True.
  - rewrite decide_False by lia. done.
Qed.

(** The loop and the cut go together: same buffer, and the texts stored
    are those of the closed buffers that are long enough. *)
Lemma run_cut filename lines :
  current_chunk (run filename lines) = open (cut_of lines)
  ∧ text <$> chunks (run filename lines)
    = filter (λ t, 50 < length t) (text_of <$> closed (cut_of lines)).
Proof.
  induction lines as [|line lines [IHo IHc]] using rev_ind; [done|].
  rewrite run_snoc, cut_of_snoc. unfold cut_step.
  destruct (header_of line) as [h|] eqn:Hh.
  - rewrite (step_header _ _ _ h) by done. simpl.
    assert (is_header line = true) as -> by (by apply is_header_true).
    simpl. split; [done|].
    by rewrite fmap_text_flush, fmap_app, filter_app, IHc, IHo.
  - rewrite step_plain by done. simpl.
    assert (is_header line = false) as -> by (by apply is_header_false).
    simpl. by rewrite IHo.
Qed.

Lemma chunk_markdown_texts content filename :
  text <$> chunk_markdown content filename
  = filter (λ t, 50 < length t) (text_of <$> segments (split_lines content)).
Proof.
  unfold chunk_markdown, segments.
  destruct (run_cut filename (split_lines content)) as [Ho Hc].
  by rewrite fmap_text_flush, fmap_app, filter_app, Hc, Ho.
Qed.

(** * The chunks *)

(** C1. Every chunk that [chunk_markdown] returns has a text that is
    not empty, is trimmed (trimming it again changes nothing) and is
    strictly longer than 50 characters. At either place where a buffer
    is turned into a chunk, a buffer whose trimmed text has exactly 50
    characters adds nothing, and one whose trimmed text has 51 adds a
    chunk with that text; so the text of a buffer of the document is
    among the chunk texts when it has 51 characters and is not when it
    has 50. *)
Theorem chunk_text_longer_than_50 :
  (∀ content filename,
     Forall (λ c, text c ≠ [] ∧ 50 < length (text c)
                  ∧ strip (text c) = text c)
       (chunk_markdown content filename))
  ∧ (∀ filename st,
       length (text_of (current_chunk st)) = 50 →
       flush filename st = chunks st)
  ∧ (∀ filename st,
       length (text_of (current_chunk st)) = 51 →
       flush filename st =
         chunks st
         ++ [Chunk (text_of (current_chunk st)) (current_header st) filename])
  ∧ (∀ content filename buf,
       buf ∈ segments (split_lines content) →
       (length (text_of buf) = 50 →
        text_of buf ∉ text <$> chunk_markdown content filename)
       ∧ (length (text_of buf) = 51 →
          text_of buf ∈ text <$> chunk_markdown content filename)).
Proof.
  split_and!.
  - intros content filename. unfold chunk_markdown.
    destruct (run_chunks_good filename (split_lines content)) as [Hl Ht].
    apply (flush_long filename) in Hl. apply (flush_trimmed filename) in Ht.
    rewrite Forall_forall in *. intros c Hc.
    specialize (Hl c Hc). specialize (Ht c Hc). simpl in *.
    split_and!; [|done|done]. intros Hnil. rewrite Hnil in Hl.
    simpl in Hl. lia.
  - intros filename st Hlen. rewrite flush_eq.
    destruct (current_chunk st) as [|l buf]; simpl; [by rewrite app_nil_r|].
    unfold kept. rewrite Hlen. simpl. by rewrite app_nil_r.
  - intros filename st Hlen. rewrite flush_eq.
    destruct (current_chunk st) as [|l buf]; [done|]. simpl.
    unfold kept. by rewrite Hlen.
  - intros content filename buf Hbuf.
    rewrite chunk_markdown_texts, list_elem_of_filter. split.
    + intros Hlen [Hlt _]. lia.
    + intros Hlen. split; [lia|]. by apply list_elem_of_fmap_2.
Qed.

(** The boundary on two documents: 50 characters give no chunk, 51 give
    one. *)
Lemma chunk_text_longer_than_50_witness :
  chunk_markdown
    (py "01234567890123456789012345678901234567890123456789") (py "f.md")
  = []
  ∧ chunk_markdown
      (py "012345678901234567890123456789012345678901234567890") (py "f.md")
    = [Chunk (py "012345678901234567890123456789012345678901234567890")
         (py "f.md") (py "f.md")].
Proof.
  split.
  - exact (proj1 (proj2 chunk_text_longer_than_50) (py "f.md")
      (run (py "f.md")
         (split_lines
            (py "01234567890123456789012345678901234567890123456789")))
      eq_refl).
  - exact (proj1 (proj2 (proj2 chunk_text_longer_than_50)) (py "f.md")
      (run (py "f.md")
         (split_lines
            (py "012345678901234567890123456789012345678901234567890")))
      eq_refl).
Defined.

Lemma chunk_markdown_no_header content filename :
  Forall (λ line, header_match line = None) (split_lines content) →
  chunk_markdown content filename =
    if (50 <? length (strip content))%nat
    then [Chunk (strip content) filename filename] else [].
Proof.
  intros H. unfold chunk_markdown. rewrite run_no_header by done.
  rewrite flush_eq. simpl.
  pose proof (split_from_nonempty [] content) as Hne.
  fold (split_lines content) in Hne.
  destruct (split_lines content) as [|l ls] eqn:Hl; [done|]. simpl.
  unfold kept, text_of. rewrite <- Hl, join_split_lines.
  by destruct (50 <? length (strip content))%nat.
Qed.

(** C6. A document without header lines gives at most one chunk: the
    whole document, trimmed, under the file name as header path when
    the trimmed document is longer than 50 characters, and nothing
    otherwise. *)
Theorem no_header_single_chunk content filename :
  Forall (λ line, header_match line = None) (split_lines content) →
  length (chunk_markdown content filename) ≤ 1
  ∧ (50 < length (strip content) →
     chunk_markdown content filename
     = [Chunk (strip content) filename filename])
  ∧ (length (strip content) ≤ 50 → chunk_markdown content filename = [])
  ∧ Forall (λ c, header c = filename) (chunk_markdown content filename).
Proof.
  intros H. rewrite chunk_markdown_no_header by done.
  destruct (Nat.ltb_spec 50 (length (strip content))) as [Hlt|Hge].
  - split_and!; [simpl; lia|done|lia|by repeat constructor].
  - split_and!; [simpl; lia|lia|done|constructor].
Qed.

Lemma no_header_single_chunk_witness :
  chunk_markdown
    (py "plain notes, no heading at all, yet longer than fifty characters
and a second line") (py "notes.md")
  = [Chunk
       (py "plain notes, no heading at all, yet longer than fifty characters
and a second line") (py "notes.md") (py "notes.md")].
Proof.
  refine (proj1 (proj2 (no_header_single_chunk _ (py "notes.md") _)) _).
  - repeat constructor.
  - vm_compute. lia.
Defined.

Lemma whitespace_line_no_header line :
  Forall (λ c, isspace c = true) line → header_match line = None.
Proof.
  intros Hws. destruct (header_match line) as [g|] eqn:H; [|done].
  destruct (header_match_head line) as [rest ->]; [by eexists|].
  apply Forall_cons in Hws as [Hws _]. by rewrite isspace_hash in Hws.
Qed.

Lemma join_all_space lines :
  Forall (Forall (λ c, isspace c = true)) lines →
  Forall (λ c, isspace c = true) (join [newline] lines).
Proof.
  induction lines as [|l [|l' lines] IH]; intros H; [constructor| |].
  - by apply Forall_cons in H as [H _].
  - apply Forall_cons in H as [Hl H]. rewrite join_cons.
    apply Forall_app. split; [done|]. apply Forall_cons. split; [done|].
    by apply IH.
Qed.

(** C9. Empty content, and content whose lines hold nothing but
    whitespace, give no chunk at all, although the line list is never
    empty and the last buffer is therefore not empty either: for the
    empty content both are the one empty line. *)
Theorem blank_content_no_chunk :
  (∀ content filename,
     Forall (Forall (λ c, isspace c = true)) (split_lines content) →
     chunk_markdown content filename = [])
  ∧ (∀ filename, chunk_markdown [] filename = [])
  ∧ (∀ content, split_lines content ≠ [])
  ∧ split_lines [] = [[]]
  ∧ (∀ filename, current_chunk (run filename (split_lines [])) = [[]]).
Proof.
  split_and!; [|done|apply split_from_nonempty|done|done].
  intros content filename Hws.
  rewrite chunk_markdown_no_header.
  - apply join_all_space in Hws. rewrite join_split_lines in Hws.
    by rewrite strip_all_space.
  - eapply Forall_impl; [done|]. apply whitespace_line_no_header.
Qed.

Lemma blank_content_no_chunk_witness :
  chunk_markdown (py "   
	
  ") (py "blank.md") = [].
Proof.
  apply (proj1 blank_content_no_chunk). repeat constructor.
Defined.

(** C7. A line of the document is taken for a header exactly when it is
    made of 1 to 4 hashes, then one or more whitespace characters, then
    a title that is not empty; a line that starts with 5 or more hashes
    never is. *)
Theorem header_line_shape :
  (∀ content line,
     line ∈ split_lines content →
     is_Some (header_match line) ↔ header_shape line)
  ∧ (∀ n rest, 5 ≤ n → header_match (replicate n hash ++ rest) = None).
Proof.
  split.
  - intros content line Hin. apply header_match_shape.
    by eapply split_lines_no_newline.
  - apply header_match_many_hashes.
Qed.

Lemma header_line_shape_witness :
  (is_Some (header_match (py "## Setup")) ↔ header_shape (py "## Setup"))
  ∧ header_match (py "##### Setup") = None.
Proof.
  split.
  - apply (proj1 header_line_shape (py "# Guide
## Setup
run it") (py "## Setup")).
    apply list_elem_of_further, list_elem_of_here.
  - apply (proj2 header_line_shape 5 (py " Setup")). lia.
Defined.

(** * Header paths *)

Lemma pop_closed_prefix fuel level stack :
  pop_closed fuel level stack `prefix_of` stack.
Proof.
  revert stack. induction fuel as [|fuel IH]; intros stack; simpl; [done|].
  destruct (last stack) as [top|] eqn:Hlast; [|done].
  destruct (level <=? top.1); [|done].
  apply last_Some in Hlast as [below ->]. rewrite removelast_last.
  etrans; [apply IH|]. by apply prefix_app_r.
Qed.

Lemma increasing_prefix stack stack' :
  stack' `prefix_of` stack → increasing stack → increasing stack'.
Proof. intros [k ->]. apply StronglySorted_app_1_l. Qed.

Lemma with_paths_app filename seen a b :
  with_paths filename seen (a ++ b)
  = with_paths filename seen a ++ with_paths filename (seen ++ concat a) b.
Proof.
  revert seen. induction a as [|seg a IH]; intros seen; simpl.
  - by rewrite app_nil_r.
  - by rewrite IH, app_assoc.
Qed.

Lemma with_paths_lookup filename seen segs k :
  with_paths filename seen segs !! k
  = (λ seg, (seg, path_of filename
                    (seen ++ concat (take k segs) ++ take 1 seg)))
    <$> segs !! k.
Proof.
  revert seen k. induction segs as [|seg segs IH]; intros seen [|k]; try done.
  simpl. rewrite IH. destruct (segs !! k); [|done]. simpl.
  by rewrite <- !app_assoc.
Qed.

Lemma concat_closed_buffer closed buf :
  concat (closed ++ some_buffer buf) = concat closed ++ buf.
Proof. by rewrite concat_app, concat_some_buffer. Qed.

(** Turning the buffer into a chunk, in terms of the cut. *)
Lemma flush_with_paths filename st closed :
  chunks st = omap (chunk_of filename) (with_paths filename [] closed) →
  current_header st
  = path_of filename (concat closed ++ take 1 (current_chunk st)) →
  flush filename st
  = omap (chunk_of filename)
      (with_paths filename [] (closed ++ some_buffer (current_chunk st))).
Proof.
  intros Hc Hh. rewrite flush_eq, with_paths_app, omap_app, Hc. f_equal.
  destruct (current_chunk st) as [|l buf]; [done|].
  simpl. unfold chunk_of. simpl. by rewrite Hh.
Qed.

(** The chunks stored so far are those of the closed buffers, each
    under the path at its first line; the path of the open buffer is
    the current one. *)
Lemma run_with_paths filename lines :
  chunks (run filename lines)
  = omap (chunk_of filename) (with_paths filename [] (closed (cut_of lines)))
  ∧ path_of filename
      (concat (closed (cut_of lines)) ++ take 1 (open (cut_of lines)))
    = path_of filename lines.
Proof.
  induction lines as [|line lines [IHc IHp]] using rev_ind; [done|].
  destruct (run_cut filename lines) as [Hopen _].
  pose proof (cut_of_concat lines) as Hcat.
  rewrite run_snoc, cut_of_snoc. unfold cut_step.
  destruct (header_of line) as [h|] eqn:Hh.
  - rewrite (step_header _ _ _ h) by done. cbn [chunks].
    assert (is_header line = true) as -> by (by apply is_header_true).
    cbn [closed open]. split.
    + rewrite <- Hopen. apply flush_with_paths; [done|].
      by rewrite run_current_header, Hopen, IHp.
    + by rewrite concat_closed_buffer, Hcat.
  - rewrite step_plain by done. cbn [chunks].
    assert (is_header line = false) as -> by (by apply is_header_false).
    cbn [closed open]. split; [done|].
    rewrite path_of_snoc_plain by done.
    destruct (cut_of_starts lines) as (Hnil & _).
    destruct (open (cut_of lines)) as [|l buf] eqn:Hop; [|done].
    rewrite Hnil in Hcat |- * by done. simpl in Hcat. subst lines.
    exact (path_of_snoc_plain filename [] line Hh).
Qed.

(** The chunks are those of the buffers of the document that are kept,
    in order, each with its trimmed text and the header path at its
    first line. *)
Lemma chunk_markdown_segments content filename :
  chunk_markdown content filename
  = chunks_of_segments filename (split_lines content).
Proof.
  unfold chunk_markdown, chunks_of_segments, segments.
  destruct (run_with_paths filename (split_lines content)) as [Hc Hp].
  destruct (run_cut filename (split_lines content)) as [Hopen _].
  rewrite <- Hopen. apply flush_with_paths; [done|].
  by rewrite run_current_header, Hopen, Hp.
Qed.

Lemma elem_of_chunks_of_segments filename lines c :
  c ∈ chunks_of_segments filename lines ↔
  ∃ k seg,
    segments lines !! k = Some seg ∧ kept seg = true
    ∧ c = Chunk (text_of seg)
            (path_of filename
               (concat (take k (segments lines)) ++ take 1 seg))
            filename.
Proof.
  unfold chunks_of_segments. rewrite list_elem_of_omap. split.
  - intros ([seg path] & Hin & Hc).
    apply list_elem_of_lookup in Hin as [k Hk].
    rewrite with_paths_lookup in Hk.
    destruct (segments lines !! k) as [seg'|] eqn:Hseg; [|done].
    injection Hk as <- <-. unfold chunk_of in Hc. simpl in Hc.
    destruct (kept seg') eqn:Hkept; [|done]. injection Hc as <-.
    by exists k, seg'.
  - intros (k & seg & Hseg & Hkept & ->).
    exists (seg, path_of filename
                   (concat (take k (segments lines)) ++ take 1 seg)).
    split.
    + apply list_elem_of_lookup. exists k.
      by rewrite with_paths_lookup, Hseg.
    + unfold chunk_of. simpl. by rewrite Hkept.
Qed.

(** The path is read off the stack: the file name on an empty stack,
    the titles on it joined otherwise. *)
Lemma path_of_stack filename seen :
  path_of filename seen
  = match header_stack (run filename seen) with
    | [] => filename
    | stack => join (py " > ") (stack.*2)
    end.
Proof. by rewrite run_header_stack. Qed.

(** C10. After any number of lines of the document, the levels on the
    header stack increase strictly from bottom to top and lie between 1
    and 4, so the stack holds at most 4 entries; this also holds after
    any number of turns of the loop that pops closed headers. Every
    chunk is the chunk of one buffer of the document, and its header
    path is read off the stack as it is after the first line of that
    buffer: the file name when that stack is empty, and otherwise the
    titles of its entries, at most 4, joined with " > ". *)
Theorem header_stack_increasing content filename pre post :
  split_lines content = pre ++ post →
  (increasing (header_stack (run filename pre))
   ∧ Forall (λ h, 1 ≤ h.1 ≤ 4) (header_stack (run filename pre))
   ∧ length (header_stack (run filename pre)) ≤ 4)
  ∧ (∀ turns level,
       let stack := pop_closed turns level (header_stack (run filename pre)) in
       increasing stack ∧ Forall (λ h, 1 ≤ h.1 ≤ 4) stack ∧ length stack ≤ 4)
  ∧ Forall (λ c,
      ∃ k seg,
        segments (split_lines content) !! k = Some seg
        ∧ text c = text_of seg
        ∧ ∃ stack,
            stack
            = header_stack
                (run filename
                   (concat (take k (segments (split_lines content)))
                    ++ take 1 seg))
            ∧ increasing stack ∧ Forall (λ h, 1 ≤ h.1 ≤ 4) stack
            ∧ length (stack.*2) ≤ 4
            ∧ header c = match stack with
                         | [] => filename
                         | _ => join (py " > ") (stack.*2)
                         end)
      (chunk_markdown content filename).
Proof.
  intros _.
  assert (Hok : ∀ seen,
    increasing (header_stack (run filename seen))
    ∧ Forall (λ h, 1 ≤ h.1 ≤ 4) (header_stack (run filename seen))
    ∧ length (header_stack (run filename seen)) ≤ 4).
  { intros seen. rewrite run_header_stack.
    pose proof (open_headers_increasing (omap header_of seen)).
    pose proof (open_headers_levels seen).
    split_and!; [done|done|by apply increasing_levels_length]. }
  destruct (Hok pre) as (Hinc & Hlev & Hlen).
  split_and!; [done|done|done| |].
  - intros turns level stack.
    pose proof (pop_closed_prefix turns level (header_stack (run filename pre)))
      as Hpre. fold stack in Hpre.
    assert (increasing stack) by (by eapply increasing_prefix).
    assert (Forall (λ h, 1 ≤ h.1 ≤ 4) stack).
    { destruct Hpre as [k Hk]. rewrite Hk in Hlev.
      by apply Forall_app in Hlev as [? _]. }
    split_and!; [done|done|by apply increasing_levels_length].
  - apply Forall_forall. intros c Hc.
    rewrite chunk_markdown_segments in Hc.
    apply elem_of_chunks_of_segments in Hc as (k & seg & Hseg & _ & ->).
    exists k, seg. split_and!; [done|done|].
    eexists. split; [reflexivity|].
    destruct (Hok (concat (take k (segments (split_lines content)))
                   ++ take 1 seg)) as (Hinc' & Hlev' & Hlen').
    split_and!; [done|done|by rewrite length_fmap|].
    cbn [header]. rewrite path_of_stack.
    by destruct (header_stack (run filename
      (concat (take k (segments (split_lines content))) ++ take 1 seg))).
Qed.

Lemma header_stack_increasing_witness :
  header_stack (run (py "f.md") [py "# A"; py "## B"; py "#### D"; py "## C"])
  = [(1, py "A"); (2, py "C")]
  ∧ length
      (header_stack
         (run (py "f.md") [py "# A"; py "## B"; py "#### D"; py "## C"])) ≤ 4.
Proof.
  split; [reflexivity|].
  apply (header_stack_increasing (py "# A
## B
#### D
## C
body") (py "f.md") [py "# A"; py "## B"; py "#### D"; py "## C"] [py "body"]).
  reflexivity.
Defined.

Lemma split_lines_join lines :
  lines ≠ [] → Forall (λ line, newline ∉ line) lines →
  split_lines (join [newline] lines) = lines.
Proof.
  intros Hne Hnl. induction Hnl as [|p [|q lines] Hp Hnl IH]; [done| |].
  - simpl. unfold split_lines. by rewrite split_from_no_newline.
  - rewrite join_cons. unfold split_lines.
    change (p ++ [newline] ++ join [newline] (q :: lines))
      with (p ++ newline :: join [newline] (q :: lines)).
    rewrite split_from_app_newline, split_from_no_newline by done.
    by rewrite IH.
Qed.

Lemma cut_of_app_plain lines plain :
  Forall (λ line, is_header line = false) plain →
  cut_of (lines ++ plain)
  = Cut (closed (cut_of lines)) (open (cut_of lines) ++ plain).
Proof.
  induction plain as [|line plain IH] using rev_ind; intros H.
  { rewrite !app_nil_r. by destruct (cut_of lines). }
  apply Forall_app in H as [Hp Hl]. apply Forall_cons in Hl as [Hl _].
  rewrite app_assoc, cut_of_snoc, IH by done. unfold cut_step.
  rewrite Hl. simpl. by rewrite <- app_assoc.
Qed.

(** C2. A header line of level L pops every stack entry of level L or
    more and is then pushed, and the current header path becomes the
    titles on the stack, bottom to top, joined with " > "; the stack is
    the list of the open headers. The chunks returned are exactly the
    chunks of the buffers of the document that are kept, in order: a
    chunk is returned if and only if it is, for some kept buffer, the
    trimmed text of that buffer under the path of the headers open at
    its first line, outermost first. A level-3 header met while only a
    level-1 header is open gives the path of those two titles and
    nothing in between, and the chunk it opens is returned under that
    path. *)
Theorem header_path_follows_stack :
  (∀ content filename pre line post h,
     split_lines content = pre ++ line :: post →
     header_of line = Some h →
     header_stack (run filename (pre ++ [line]))
     = filter (λ x, x.1 < h.1) (header_stack (run filename pre)) ++ [h]
     ∧ current_header (run filename (pre ++ [line]))
       = join (py " > ") ((header_stack (run filename (pre ++ [line]))).*2))
  ∧ (∀ content filename,
       Forall (chunk_from filename (split_lines content))
         (chunk_markdown content filename))
  ∧ (∀ filename seen,
       header_stack (run filename seen) = open_headers (omap header_of seen)
       ∧ current_header (run filename seen) = path_of filename seen)
  ∧ (∀ filename pre line a c,
       header_stack (run filename pre) = [(1, a)] →
       header_of line = Some (3, c) →
       current_header (run filename (pre ++ [line])) = a ++ py " > " ++ c)
  ∧ (∀ content filename,
       chunk_markdown content filename
       = chunks_of_segments filename (split_lines content))
  ∧ (∀ content filename c,
       c ∈ chunk_markdown content filename ↔
       ∃ k seg,
         segments (split_lines content) !! k = Some seg ∧ kept seg = true
         ∧ c = Chunk (text_of seg)
                 (path_of filename
                    (concat (take k (segments (split_lines content)))
                     ++ take 1 seg))
                 filename)
  ∧ (∀ content,
       concat (segments (split_lines content)) = split_lines content
       ∧ Forall (λ seg, seg ≠ []
                        ∧ Forall (λ l, is_header l = false) (tail seg))
           (segments (split_lines content))
       ∧ Forall starts_with_header (tail (segments (split_lines content))))
  ∧ (∀ filename l1 l3 a c body,
       header_of l1 = Some (1, a) → header_of l3 = Some (3, c) →
       Forall (λ line, newline ∉ line) (l1 :: l3 :: body) →
       Forall (λ line, is_header line = false) body →
       kept (l3 :: body) = true →
       Chunk (text_of (l3 :: body)) (a ++ py " > " ++ c) filename
       ∈ chunk_markdown (join [newline] (l1 :: l3 :: body)) filename).
Proof.
  split_and!.
  - intros content filename pre line post h _ Hh.
    rewrite run_snoc, (step_header _ _ _ h) by done. simpl.
    rewrite pop_closed_filter; [done| |done].
    rewrite run_header_stack. apply open_headers_increasing.
  - intros content filename. apply Forall_forall. intros c Hc.
    apply flush_chunk_from; [apply run_chunks_from|done].
  - intros filename seen.
    by rewrite run_header_stack, run_current_header.
  - intros filename pre line a c Hst Hh.
    rewrite run_snoc, (step_header _ _ _ (3, c)) by done. simpl.
    by rewrite Hst.
  - apply chunk_markdown_segments.
  - intros content filename c. rewrite chunk_markdown_segments.
    apply elem_of_chunks_of_segments.
  - intros content. split_and!;
      [apply segments_concat|apply segments_shape|apply segments_starts].
  - intros filename l1 l3 a c body H1 H3 Hnl Hbody Hkept.
    rewrite chunk_markdown_segments, split_lines_join by done.
    apply elem_of_chunks_of_segments.
    assert (Hcut : cut_of ([l1; l3] ++ body) = Cut [[l1]] (l3 :: body)).
    { rewrite cut_of_app_plain by done. unfold cut_of. simpl.
      unfold cut_step.
      assert (is_header l1 = true) as -> by (apply is_header_true; by eexists).
      simpl.
      assert (is_header l3 = true) as -> by (apply is_header_true; by eexists).
      done. }
    assert (Hsegs : segments (l1 :: l3 :: body) = [[l1]; l3 :: body]).
    { unfold segments. change (l1 :: l3 :: body) with ([l1; l3] ++ body).
      by rewrite Hcut. }
    exists 1, (l3 :: body). rewrite Hsegs. split_and!; [done|done|].
    f_equal. simpl. unfold path_of. simpl. rewrite H1, H3. done.
Qed.

Lemma header_path_follows_stack_witness :
  (header_stack (run (py "f.md") [py "# A"; py "## B"; py "## C"])
   = filter (λ x, x.1 < 2) (header_stack (run (py "f.md") [py "# A"; py "## B"]))
     ++ [(2, py "C")]
   ∧ current_header (run (py "f.md") [py "# A"; py "## B"; py "## C"])
     = join (py " > ")
         ((header_stack (run (py "f.md") [py "# A"; py "## B"; py "## C"])).*2))
  ∧ current_header (run (py "f.md") [py "# A"; py "### C"]) = py "A > C"
  ∧ Chunk
      (text_of [py "### C";
                py "body text that is long enough to be kept as a chunk"])
      (py "A" ++ py " > " ++ py "C") (py "f.md")
    ∈ chunk_markdown
        (join [newline]
           [py "# A"; py "### C";
            py "body text that is long enough to be kept as a chunk"])
        (py "f.md").
Proof.
  split; [|split].
  - apply (proj1 header_path_follows_stack (py "# A
## B
## C
body") (py "f.md") [py "# A"; py "## B"] (py "## C") [py "body"] (2, py "C"));
      reflexivity.
  - apply (proj1 (proj2 (proj2 (proj2 header_path_follows_stack)))
             (py "f.md") [py "# A"] (py "### C") (py "A") (py "C"));
      reflexivity.
  - apply (proj2 (proj2 (proj2 (proj2 (proj2 (proj2 (proj2
             header_path_follows_stack))))))
             (py "f.md") (py "# A") (py "### C") (py "A") (py "C")
             [py "body text that is long enough to be kept as a chunk"]).
    + reflexivity.
    + reflexivity.
    + repeat constructor; apply (bool_decide_unpack _); vm_compute; exact I.
    + repeat constructor.
    + vm_compute. reflexivity.
Defined.

(** * Coverage of the document *)

Lemma lstrip_decompose s :
  ∃ lead, s = lead ++ lstrip s ∧ Forall (λ c, isspace c = true) lead.
Proof.
  induction s as [|c s (lead & Hs & Hlead)]; simpl.
  { by exists []. }
  destruct (isspace c) eqn:Hc.
  - exists (c :: lead). split; [by rewrite Hs at 1|by constructor].
  - by exists [].
Qed.

(** Trimming only removes whitespace at the two ends. *)
Lemma strip_decompose s :
  ∃ lead trail,
    s = lead ++ strip s ++ trail
    ∧ Forall (λ c, isspace c = true) lead
    ∧ Forall (λ c, isspace c = true) trail.
Proof.
  destruct (lstrip_decompose s) as (lead & Hs & Hlead).
  destruct (lstrip_decompose (rev (lstrip s))) as (liart & Hr & Htrail).
  exists lead, (rev liart). split_and!; [|done|by apply Forall_rev].
  unfold strip, rstrip. rewrite <- rev_app_distr, <- Hr, rev_involutive. done.
Qed.

(** C3, as the code has it. The buffers cut before each header line are
    the lines of the document, in order, each line in exactly one
    buffer; every buffer after the first starts with a header line and
    no buffer holds another one. The texts of the chunks are, in that
    order, the trimmed texts of the buffers that are longer than 50
    characters once trimmed. A trimmed text is the buffer joined by
    newlines less some whitespace at its two ends, so the chunk texts
    give the kept buffers back up to that whitespace only. *)
Theorem chunks_cover_document content filename :
  join [newline] (split_lines content) = content
  ∧ concat (segments (split_lines content)) = split_lines content
  ∧ Forall (λ seg, seg ≠ [] ∧ Forall (λ l, is_header l = false) (tail seg))
      (segments (split_lines content))
  ∧ Forall starts_with_header (tail (segments (split_lines content)))
  ∧ text <$> chunk_markdown content filename
    = filter (λ t, 50 < length t)
        (text_of <$> segments (split_lines content))
  ∧ Forall (λ seg, ∃ lead trail,
              join [newline] seg = lead ++ text_of seg ++ trail
              ∧ Forall (λ c, isspace c = true) lead
              ∧ Forall (λ c, isspace c = true) trail)
      (segments (split_lines content)).
Proof.
  split_and!.
  - apply join_split_lines.
  - apply segments_concat.
  - apply segments_shape.
  - apply segments_starts.
  - apply chunk_markdown_texts.
  - apply Forall_forall. intros seg _. apply strip_decompose.
Qed.

(** C3, as the claim has it, fails: the blank line between two sections
    belongs to the first buffer, no buffer is dropped, and the line is in
    no chunk text. *)
Lemma texts_rebuild_lines_fails :
  ¬ texts_rebuild_lines
      (py "# Install
run the installer and wait until it reports that it is done

# Usage
call the tool with the name of the file that it should read")
      (py "guide.md").
Proof. unfold texts_rebuild_lines. vm_compute. discriminate. Qed.

(** * The nesting example *)

Lemma text_of_starts c a rest :
  isspace c = false →
  length (c :: a) ≤ length (text_of [c :: a; rest]) →
  ∃ tail, text_of [c :: a; rest] = (c :: a) ++ tail.
Proof.
  intros Hc Hlen. unfold text_of, strip in *.
  change (join [newline] [c :: a; rest]) with (c :: a ++ newline :: rest) in *.
  assert (Hl : lstrip (c :: a ++ newline :: rest) = c :: a ++ newline :: rest)
    by (simpl; by rewrite Hc).
  rewrite Hl in *.
  destruct (rstrip_prefix (c :: a ++ newline :: rest)) as [k Hk].
  set (u := rstrip _) in *.
  exists (drop (length (c :: a)) u).
  rewrite <- (take_drop (length (c :: a)) u) at 1. f_equal.
  apply (f_equal (take (length (c :: a)))) in Hk.
  rewrite take_app_le in Hk by done.
  change (c :: a ++ newline :: rest) with ((c :: a) ++ newline :: rest) in Hk.
  by rewrite take_app_length in Hk.
Qed.

(** C4, as the code has it. With "text" and "more" replaced by body
    lines [t1] and [t2] that make the two buffers longer than 50
    characters, the chunks are the one under "A > B", whose text starts
    with "## B", and the one under "A > C". On the literal input the
    paths are the same but every buffer is too short, and no chunk is
    returned. *)
Theorem nested_headers_example filename t1 t2 :
  newline ∉ t1 → newline ∉ t2 →
  header_match t1 = None → header_match t2 = None →
  50 < length (text_of [py "## B"; t1]) →
  50 < length (text_of [py "## C"; t2]) →
  (chunk_markdown (py "# A
## B
" ++ t1 ++ py "
## C
" ++ t2) filename
   = [Chunk (text_of [py "## B"; t1]) (py "A > B") filename;
      Chunk (text_of [py "## C"; t2]) (py "A > C") filename]
   ∧ ∃ tail, text_of [py "## B"; t1] = py "## B" ++ tail)
  ∧ chunk_markdown (py "# A
## B
text
## C
more") filename = []
  ∧ path_of filename [py "# A"; py "## B"; py "text"] = py "A > B"
  ∧ path_of filename [py "# A"; py "## B"; py "text"; py "## C"; py "more"]
    = py "A > C".
Proof.
  intros Hn1 Hn2 Hh1 Hh2 Hk1 Hk2.
  split; [split|split_and!; reflexivity].
  - assert (Hlines : split_lines (py "# A
## B
" ++ t1 ++ py "
## C
" ++ t2) = [py "# A"; py "## B"; t1; py "## C"; t2]).
    { change (split_from [] (py "# A" ++ newline :: py "## B" ++ newline ::
                t1 ++ newline :: py "## C" ++ newline :: t2)
              = [py "# A"; py "## B"; t1; py "## C"; t2]).
      rewrite split_from_app_newline. unfold split_lines.
      rewrite split_from_app_newline. unfold split_lines.
      rewrite split_from_app_newline. unfold split_lines.
      rewrite split_from_app_newline. unfold split_lines.
      by rewrite (split_from_no_newline [] t1), (split_from_no_newline [] t2). }
    unfold chunk_markdown. rewrite Hlines.
    change [py "# A"; py "## B"; t1; py "## C"; t2]
      with ((([py "# A"; py "## B"] ++ [t1]) ++ [py "## C"]) ++ [t2]).
    rewrite !run_snoc.
    change (run filename [py "# A"; py "## B"])
      with (State [] [py "## B"] (py "A > B") [(1, py "A"); (2, py "B")]).
    rewrite (step_plain _ _ t1) by (unfold header_of; by rewrite Hh1).
    rewrite (step_header _ _ (py "## C") (2, py "C")) by done.
    rewrite (step_plain _ _ t2) by (unfold header_of; by rewrite Hh2).
    apply Nat.ltb_lt in Hk1, Hk2.
    rewrite (flush_kept _ _ [py "## C"; t2]) by done. cbn [chunks].
    rewrite (flush_kept _ _ [py "## B"; t1]) by done. done.
  - apply (text_of_starts 35%N); [done|].
    etrans; [|apply Nat.lt_le_incl, Hk1]. vm_compute. lia.
Qed.

Lemma nested_headers_example_witness :
  chunk_markdown (py "# A
## B
text that is long enough to be kept as a chunk by the indexer
## C
more body text that is also long enough to be kept by it") (py "skill.md")
  = [Chunk (py "## B
text that is long enough to be kept as a chunk by the indexer")
       (py "A > B") (py "skill.md");
     Chunk (py "## C
more body text that is also long enough to be kept by it")
       (py "A > C") (py "skill.md")].
Proof.
  refine (proj1 (proj1 (nested_headers_example (py "skill.md")
    (py "text that is long enough to be kept as a chunk by the indexer")
    (py "more body text that is also long enough to be kept by it")
    _ _ _ _ _ _))).
  - apply (bool_decide_unpack _). vm_compute. exact I.
  - apply (bool_decide_unpack _). vm_compute. exact I.
  - reflexivity.
  - reflexivity.
  - vm_compute. lia.
  - vm_compute. lia.
Defined.

(** C4, as the claim has it, fails: on the literal input nothing is
    returned. *)
Lemma nesting_example_fails : ¬ nesting_example (py "skill.md").
Proof. intros (c1 & c2 & rest & tail & H & _). vm_compute in H. discriminate. Qed.

(** * The indexer *)

Lemma bind_ok {A B} (m : M A) (k : A → M B) w a w' :
  m w = (Ok a, w') → (m ≫= k) w = k a w'.
Proof. unfold mbind, M_bind. by intros ->. Qed.

Lemma print_ok line w :
  print line w = (Ok (), World (store w) (stdout w ++ [line])).
Proof. done. Qed.

(** Printing a list of lines appends them to the output. *)
Lemma for_each_print lines w :
  for_each print lines w = (Ok (), World (store w) (stdout w ++ lines)).
Proof.
  revert w. induction lines as [|l lines IH]; intros [st out]; simpl.
  - by rewrite app_nil_r.
  - erewrite bind_ok by apply print_ok. rewrite IH. simpl.
    by rewrite <- app_assoc.
Qed.

Lemma for_each_blocks {A} (block : A → list str) items w :
  for_each (λ item, for_each print (block item)) items w
  = (Ok (), World (store w) (stdout w ++ concat (block <$> items))).
Proof.
  revert w. induction items as [|a items IH]; intros [st out]; simpl.
  - by rewrite app_nil_r.
  - erewrite bind_ok by apply for_each_print. rewrite IH. simpl.
    by rewrite <- app_assoc.
Qed.

(** The loop over the files keeps the store as it is and returns the
    chunks of all files, in order. *)
Lemma chunk_files_ok files all_chunks w :
  ∃ out,
    chunk_files files all_chunks w
    = (Ok (all_chunks ++ concat ((λ f, chunk_markdown f.2 f.1) <$> files)),
       World (store w) (stdout w ++ out)).
Proof.
  revert all_chunks w.
  induction files as [|[name content] files IH]; intros all_chunks [st out].
  - exists []. simpl. by rewrite !app_nil_r.
  - simpl. erewrite bind_ok by apply print_ok.
    erewrite bind_ok by apply print_ok. cbn [store stdout].
    edestruct IH as [out' ->].
    eexists. cbn [store stdout]. by rewrite <- !app_assoc.
Qed.

(** Deleting the collection never fails for [main]: the collection is
    gone afterwards, whether it was there or not. *)
Lemma try_delete_ok w :
  ∃ out,
    try_except
      (delete_collection collection_name;;
       print (py "Deleted existing collection"))
      (mret ()) w
    = (Ok (), World (delete collection_name (store w)) (stdout w ++ out)).
Proof.
  destruct w as [st out]. unfold mbind, M_bind, try_except, delete_collection.
  cbn [store stdout]. destruct (st !! collection_name) as [docs|] eqn:Hst.
  - by exists [py "Deleted existing collection"].
  - exists []. rewrite app_nil_r, delete_id by done. done.
Qed.

Lemma create_collection_ok name w :
  store w !! name = None →
  create_collection name w
  = (Ok (), World (<[name := []]> (store w)) (stdout w)).
Proof. intros H. unfold create_collection. by rewrite H. Qed.

(** C8. When no file gives a chunk, [main] returns normally, its last
    output line is "No chunks found!", and the collection it has just
    created is left empty: nothing is added, every other collection is
    as before. *)
Theorem no_chunks_no_insertion search files w :
  Forall (λ f, chunk_markdown f.2 f.1 = []) files →
  ∃ out,
    index_main search files w
    = (Ok (),
       World (<[collection_name := []]> (store w))
         (stdout w ++ out ++ [py "No chunks found!"])).
Proof.
  intros Hnone. unfold index_main.
  assert (Hall : concat ((λ f, chunk_markdown f.2 f.1) <$> files) = []).
  { induction Hnone as [|f fs Hf _ IH]; [done|].
    rewrite fmap_cons. cbn [concat]. by rewrite Hf, IH. }
  destruct (try_delete_ok w) as [out1 H1].
  rewrite (bind_ok _ _ _ _ _ H1).
  rewrite (bind_ok _ _ _ _ _ (create_collection_ok _ _ (lookup_delete_eq _ _))).
  cbn [store stdout]. rewrite insert_delete_eq.
  destruct (chunk_files_ok files []
              (World (<[collection_name := []]> (store w)) (stdout w ++ out1)))
    as [out2 H2].
  rewrite Hall in H2. rewrite (bind_ok _ _ _ _ _ H2).
  exists (out1 ++ out2). cbn [app]. rewrite print_ok. cbn [store stdout].
  by rewrite <- !app_assoc.
Qed.

Lemma no_chunks_no_insertion_witness :
  ∃ out,
    index_main (λ _ _ _, QueryResults [] [] [])
      [(py "notes.md", py "only a few
short fragments")] (World ∅ [])
    = (Ok (),
       World (<[collection_name := []]> ∅)
         ([] ++ out ++ [py "No chunks found!"])).
Proof.
  apply (no_chunks_no_insertion (λ _ _ _, QueryResults [] [] [])
           [(py "notes.md", py "only a few
short fragments")] (World ∅ [])).
  repeat constructor.
Defined.

(** * The query tool *)

Lemma relevance_formula f :
  relevance (Float f) = PrimFloat.sub 1 (PrimFloat.div f 2).
Proof.
  unfold relevance, truthy.
  destruct (PrimFloat.eqb f 0) eqn:E; simpl; [|done].
  rewrite FloatAxioms.eqb_spec in E.
  rewrite <- (SF2Prim_Prim2SF f).
  destruct (Prim2SF f) as [s|s| |s m e]; simpl in E; try discriminate.
  all: by destruct s.
Qed.

(** What [query] prints for a collection that is there and a search
    that returns hits. *)
Lemma query_ok search query_text n_results w stored docs0 docs metas0 metas :
  store w !! collection_name = Some stored →
  documents (search stored query_text n_results) = docs0 :: docs →
  docs0 ≠ [] →
  metadatas (search stored query_text n_results) = metas0 :: metas →
  query search query_text n_results w
  = (Ok (),
     World (store w)
       (stdout w
        ++ [py "Query: " ++ query_text ++ [newline]; replicate 60 61%N]
        ++ concat (result_block <$>
             enumerate_from 0
               (zip3 docs0 metas0
                  (match distances (search stored query_text n_results) with
                   | d :: _ => d
                   | [] => replicate (length docs0) Zero
                   end))))).
Proof.
  intros Hst Hdocs Hne Hmetas. unfold query.
  assert (Hget : try_except (get_collection collection_name)
            (print (py "Error: Collection 'bug-fix-skills' not found.");;
             print (py "Run 'python scripts/index-skills.py' first to index the documents.");;
             sys_exit 1) w = (Ok stored, w)).
  { unfold try_except, get_collection. by rewrite Hst. }
  rewrite (bind_ok _ _ _ _ _ Hget). cbn zeta. rewrite Hdocs.
  destruct docs0 as [|doc docs0]; [done|].
  rewrite (bind_ok _ _ _ _ _ (print_ok _ _)).
  rewrite (bind_ok _ _ _ _ _ (print_ok _ _)).
  rewrite Hmetas.
  erewrite bind_ok by reflexivity.
  rewrite for_each_blocks. cbn [store stdout].
  by rewrite <- !app_assoc.
Qed.

(** C5. The relevance of a reported distance [d] is [1 - d / 2], in
    binary64 arithmetic; a missing distance, the placeholder 0 and the
    distance 0.0 give 1. It is displayed as a percentage without
    decimals: 100% for the distance 0.0, 50% for 1.0, 0% for 2.0 and
    100% for a missing distance. The line that [query] prints for each
    hit shows this percentage, with the placeholder 0 for every hit when
    the store reports no distances. *)
Theorem relevance_percentage :
  (∀ f, relevance (Float f) = PrimFloat.sub 1 (PrimFloat.div f 2))
  ∧ relevance Absent = 1%float ∧ relevance Zero = 1%float
  ∧ (∀ d, truthy d = false → relevance d = 1%float)
  ∧ format_percent (relevance (Float 0)) = py "100%"
  ∧ format_percent (relevance (Float 1)) = py "50%"
  ∧ format_percent (relevance (Float 2)) = py "0%"
  ∧ format_percent (relevance Absent) = py "100%"
  ∧ format_percent (relevance Zero) = py "100%"
  ∧ (∀ i doc meta d,
       result_block (i, (doc, meta, d)) !! 1
       = Some (py "    Relevance: " ++ format_percent (relevance d)))
  ∧ (∀ search query_text n_results w stored docs0 docs metas0 metas,
       store w !! collection_name = Some stored →
       documents (search stored query_text n_results) = docs0 :: docs →
       docs0 ≠ [] →
       metadatas (search stored query_text n_results) = metas0 :: metas →
       query search query_text n_results w
       = (Ok (),
          World (store w)
            (stdout w
             ++ [py "Query: " ++ query_text ++ [newline]; replicate 60 61%N]
             ++ concat (result_block <$>
                  enumerate_from 0
                    (zip3 docs0 metas0
                       (match distances (search stored query_text n_results)
                        with
                        | d :: _ => d
                        | [] => replicate (length docs0) Zero
                        end)))))).
Proof.
  split_and!; try reflexivity.
  - apply relevance_formula.
  - intros d Hd. unfold relevance. by rewrite Hd.
  - apply query_ok.
Qed.

Lemma relevance_percentage_witness :
  let meta := Metadata (py "Imports") (py "bugs.md") in
  let stored := [Document (py "chunk_0") (py "check the module path") meta] in
  let hits := QueryResults [replicate 4 (py "check the module path")]
                [replicate 4 meta] in
  let w := World {[ collection_name := stored ]} [] in
  (query (λ _ _ _, hits [[Float 0; Float 1; Float 2; Absent]])
     (py "import error") 5 w).2.(stdout)
  = [py "Query: import error
"; replicate 60 61%N;
     py "
[1] bugs.md > Imports"; py "    Relevance: 100%"; replicate 60 45%N;
     py "check the module path"; [];
     py "
[2] bugs.md > Imports"; py "    Relevance: 50%"; replicate 60 45%N;
     py "check the module path"; [];
     py "
[3] bugs.md > Imports"; py "    Relevance: 0%"; replicate 60 45%N;
     py "check the module path"; [];
     py "
[4] bugs.md > Imports"; py "    Relevance: 100%"; replicate 60 45%N;
     py "check the module path"; []]
  ∧ (λ block, block !! 1%nat) <$>
      (result_block <$> enumerate_from 0
         (zip3 (replicate 4 (py "check the module path")) (replicate 4 meta)
            (replicate 4 Zero)))
    = replicate 4 (Some (py "    Relevance: 100%"))
  ∧ (query (λ _ _ _, hits []) (py "import error") 5 w).2.(stdout)
    = [py "Query: import error
"; replicate 60 61%N]
      ++ concat (result_block <$> enumerate_from 0
           (zip3 (replicate 4 (py "check the module path"))
              (replicate 4 meta) (replicate 4 Zero))).
Proof.
  intros meta stored hits w.
  pose proof (proj2 (proj2 (proj2 (proj2 (proj2 (proj2 (proj2 (proj2 (proj2
                (proj2 relevance_percentage)))))))))) as Hquery.
  split_and!.
  - rewrite (Hquery (λ _ _ _, hits [[Float 0; Float 1; Float 2; Absent]])
               (py "import error") 5 w stored
               (replicate 4 (py "check the module path")) []
               (replicate 4 meta) []);
      [|reflexivity|reflexivity|discriminate|reflexivity].
    vm_compute. reflexivity.
  - vm_compute. reflexivity.
  - rewrite (Hquery (λ _ _ _, hits []) (py "import error") 5 w stored
               (replicate 4 (py "check the module path")) []
               (replicate 4 meta) []);
      [|reflexivity|reflexivity|discriminate|reflexivity].
    reflexivity.
Defined.

(** * The header pattern in one pass *)

Lemma option_match_id {A} (x : option A) :
  match x with Some r => Some r | None => None end = x.
Proof. by destruct x. Qed.

Lemma greedy_cons {A} p lo hi taken c s (k : str → str → option A) :
  greedy p lo hi taken (c :: s) k
  = if p c && (if hi is Some O then false else true)
    then match greedy p (pred lo) (pred <$> hi) (taken ++ [c]) s k with
         | Some r => Some r
         | None => if lo is O then k taken (c :: s) else None
         end
    else if lo is O then k taken (c :: s) else None.
Proof. done. Qed.

(** [(.+)$] on a text without newline takes it whole. *)
Lemma greedy_dot_rest (g1 : str) lo taken r :
  newline ∉ r → lo ≤ length r →
  greedy dot lo None taken r
    (λ g2 r3, if at_end r3 then Some (g1, g2) else None)
  = Some (g1, taken ++ r).
Proof.
  revert lo taken. induction r as [|c r IH]; intros lo taken Hnl Hlo.
  - simpl in *. assert (lo = 0) as -> by lia. by rewrite app_nil_r.
  - apply not_elem_of_cons in Hnl as [Hc Hnl]. simpl.
    assert (dot c = true) as -> by (by apply dot_true). simpl.
    rewrite IH by (done || simpl in Hlo; lia).
    by rewrite <- app_assoc.
Qed.

Lemma greedy_dot_title (g1 : str) r :
  newline ∉ r →
  greedy dot 1 None [] r (λ g2 r3, if at_end r3 then Some (g1, g2) else None)
  = match r with [] => None | _ => Some (g1, r) end.
Proof.
  intros Hnl. destruct r as [|c r]; [done|].
  rewrite greedy_dot_rest; [done|done|simpl; lia].
Qed.

Lemma title_after_space c s :
  isspace c = true →
  title_after (c :: s)
  = match title_after s with Some t => Some t | None => Some [c] end.
Proof.
  intros Hc. unfold title_after. simpl. rewrite Hc.
  destruct (lstrip s) as [|d t] eqn:Hl; [|done].
  destruct s as [|d s]; [done|]. rewrite last_cons.
  destruct (last (d :: s)) eqn:Hlast; [done|].
  by apply last_None in Hlast.
Qed.

Lemma title_after_None s : title_after s = None → s = [].
Proof.
  unfold title_after. destruct (lstrip s); [|done].
  destruct (last s) eqn:Hlast; [done|]. by apply last_None in Hlast.
Qed.

Lemma title_after_no_space c s :
  isspace c = false → title_after (c :: s) = Some (c :: s).
Proof. intros Hc. unfold title_after. simpl. by rewrite Hc. Qed.

(** [\s*] followed by [(.+)$]: the longest run of whitespace that still
    leaves a title. *)
Lemma greedy_space_title (g1 : str) taken r :
  newline ∉ r →
  greedy isspace 0 None taken r (λ _ r2,
    greedy dot 1 None [] r2
      (λ g2 r3, if at_end r3 then Some (g1, g2) else None))
  = (λ t, (g1, t)) <$> title_after r.
Proof.
  revert taken. induction r as [|c r IH]; intros taken Hnl; [done|].
  pose proof Hnl as Hnl'. apply not_elem_of_cons in Hnl' as [Hc Hr].
  rewrite (greedy_cons isspace), andb_true_r.
  rewrite (greedy_dot_title g1 (c :: r)) by done.
  destruct (isspace c) eqn:Hsp.
  - change (Init.Nat.pred 0) with 0. change (pred <$> None) with (@None nat).
    rewrite IH by done. rewrite title_after_space by done.
    destruct (title_after r) eqn:Ht; [done|].
    by apply title_after_None in Ht as ->.
  - by rewrite title_after_no_space.
Qed.

(** The rest of the pattern, after the hashes. *)
Lemma greedy_after_hashes (g1 : str) r :
  newline ∉ r →
  greedy isspace 1 None [] r (λ _ r2,
    greedy dot 1 None [] r2
      (λ g2 r3, if at_end r3 then Some (g1, g2) else None))
  = match r with
    | c :: s' => if isspace c then (λ t, (g1, t)) <$> title_after s' else None
    | [] => None
    end.
Proof.
  intros Hnl. destruct r as [|c r]; [done|].
  apply not_elem_of_cons in Hnl as [Hc Hr].
  rewrite (greedy_cons isspace), andb_true_r.
  destruct (isspace c); [|done].
  change (Init.Nat.pred 1) with 0. change (pred <$> None) with (@None nat).
  rewrite greedy_space_title by done. apply option_match_id.
Qed.

(** [#{lo,hi}] followed by a pattern that fails on a hash takes all the
    hashes there are, or fails. *)
Lemma greedy_hashes {A} lo hi taken s (k : str → str → option A) :
  (∀ t r, k t [] = None ∧ k t (hash :: r) = None) →
  greedy is_hash lo (Some hi) taken s k
  = if bool_decide (lo ≤ count_hashes s ≤ hi)
    then k (taken ++ take (count_hashes s) s) (drop (count_hashes s) s)
    else None.
Proof.
  intros Hk. revert lo hi taken.
  induction s as [|c s IH]; intros lo hi taken.
  - simpl. rewrite app_nil_r. destruct (Hk taken []) as [-> _].
    destruct lo; by destruct (bool_decide _).
  - simpl. destruct (is_hash c) eqn:Hc; simpl.
    + apply is_hash_true in Hc as ->.
      assert (Hstop : (if lo is 0 then k taken (hash :: s) else None) = None).
      { destruct (Hk taken s) as [_ ->]. by destruct lo. }
      rewrite Hstop. destruct hi as [|hi].
      * rewrite bool_decide_eq_false_2 by lia. done.
      * simpl. rewrite IH, option_match_id.
        rewrite <- app_assoc. simpl.
        destruct (decide (lo ≤ S (count_hashes s) ≤ S hi)) as [Hin|Hout].
        -- rewrite !bool_decide_eq_true_2 by lia. done.
        -- rewrite !bool_decide_eq_false_2 by lia. done.
    + simpl. rewrite app_nil_r.
      destruct lo as [|lo].
      * rewrite bool_decide_eq_true_2 by lia. done.
      * rewrite bool_decide_eq_false_2 by lia. done.
Qed.

(** X1. On a line without newline, as every line of a document is, the
    backtracking match of the header pattern is the one-pass reading:
    the level is the number of hashes the line starts with, which must
    be 1 to 4 and be followed by a whitespace character; the title is
    what follows that character without its leading whitespace, trailing
    whitespace kept, or the last character of the line when only
    whitespace follows. *)
Theorem header_match_direct line :
  newline ∉ line → header_match line = header_direct line.
Proof.
  intros Hnl. unfold header_match, header_direct.
  rewrite greedy_hashes by (intros t r; split; done).
  destruct (bool_decide _); [|done]. simpl.
  rewrite greedy_after_hashes; [done|].
  intros Hin. apply Hnl. rewrite <- (take_drop (count_hashes line) line).
  apply elem_of_app. by right.
Qed.

Lemma header_match_direct_witness :
  header_match (py "###   Known  issues ")
  = header_direct (py "###   Known  issues ")
  ∧ header_direct (py "###   Known  issues ")
    = Some (py "###", py "Known  issues ").
Proof.
  split; [|reflexivity].
  apply (header_match_direct (py "###   Known  issues ")).
  apply (bool_decide_unpack _). vm_compute. exact I.
Defined.

(** * Further properties of the chunks *)

Lemma join_app sep a b :
  a ≠ [] → b ≠ [] → join sep (a ++ b) = join sep a ++ sep ++ join sep b.
Proof.
  intros Ha Hb. induction a as [|p [|q a] IH]; [done| |].
  - destruct b; [done|]. done.
  - change ((p :: q :: a) ++ b) with (p :: (q :: a) ++ b).
    change ((q :: a) ++ b) with (q :: a ++ b) at 1.
    rewrite !join_cons. change (q :: a ++ b) with ((q :: a) ++ b).
    rewrite IH by done. by rewrite <- !app_assoc.
Qed.

Lemma substring_refl s : substring s s.
Proof. exists [], []. by rewrite app_nil_r. Qed.

Lemma substring_trans a b c : substring a b → substring b c → substring a c.
Proof.
  intros (x & y & ->) (x' & y' & ->). exists (x' ++ x), (y ++ y').
  by rewrite <- !app_assoc.
Qed.

Lemma substring_app_l a b s : substring a b → substring a (s ++ b).
Proof. intros (x & y & ->). exists (s ++ x), y. by rewrite <- !app_assoc. Qed.

Lemma substring_app_r a b s : substring a b → substring a (b ++ s).
Proof. intros (x & y & ->). exists x, (y ++ s). by rewrite <- !app_assoc. Qed.

Lemma substring_join sep pre seg post :
  seg ≠ [] → substring (join sep seg) (join sep (pre ++ seg ++ post)).
Proof.
  intros Hseg.
  assert (Hr : substring (join sep seg) (join sep (seg ++ post))).
  { destruct post as [|p post]; [rewrite app_nil_r; apply substring_refl|].
    rewrite join_app by done. apply substring_app_r, substring_refl. }
  destruct pre as [|p pre]; [done|].
  rewrite join_app; [|done|by destruct seg].
  by apply substring_app_l, substring_app_l.
Qed.

Lemma substring_strip s : substring (strip s) s.
Proof. destruct (strip_decompose s) as (lead & trail & H & _). by exists lead, trail. Qed.

Lemma chunk_from_substring filename content c :
  chunk_from filename (split_lines content) c → substring (text c) content.
Proof.
  intros (pre & seg & post & Hlines & Hseg & -> & _).
  eapply substring_trans; [apply substring_strip|].
  rewrite <- (join_split_lines content), Hlines.
  by apply substring_join.
Qed.

(** X2. The text of every chunk is a contiguous piece of the document:
    the chunker copies, it never rewrites or reorders characters. *)
Theorem chunk_text_in_document content filename :
  Forall (λ c, substring (text c) content) (chunk_markdown content filename).
Proof.
  apply Forall_forall. intros c Hc. unfold chunk_markdown in Hc.
  apply flush_chunk_from in Hc; [|apply run_chunks_from].
  by eapply chunk_from_substring.
Qed.

Lemma length_join_app sep a b :
  length (join sep a) + length (join sep b) ≤ length (join sep (a ++ b)).
Proof.
  destruct a as [|p a]; [simpl; lia|]. destruct b as [|q b].
  { rewrite app_nil_r. simpl. lia. }
  rewrite join_app by done. rewrite !length_app. lia.
Qed.

Lemma length_join_concat sep (segs : list (list str)) :
  sum_list (length ∘ join sep <$> segs) ≤ length (join sep (concat segs)).
Proof.
  induction segs as [|seg segs IH]; [done|].
  assert (E : sum_list (length ∘ join sep <$> seg :: segs)
    = length (join sep seg) + sum_list (length ∘ join sep <$> segs)) by done.
  rewrite E. cbn [concat].
  pose proof (length_join_app sep seg (concat segs)). lia.
Qed.

Lemma sum_list_filter_le {A} (P : A → Prop) `{∀ x, Decision (P x)}
    (f : A → nat) (l : list A) :
  sum_list (f <$> filter P l) ≤ sum_list (f <$> l).
Proof.
  induction l as [|x l IH]; [done|]. rewrite filter_cons.
  assert (E : ∀ k, sum_list (f <$> x :: k) = f x + sum_list (f <$> k)) by done.
  destruct (decide (P x)); rewrite !E; lia.
Qed.

Lemma pieces_in_order_app_l pieces x s :
  pieces_in_order pieces s → pieces_in_order pieces (x ++ s).
Proof.
  destruct pieces as [|piece rest]; [done|].
  intros (before & after & -> & H). exists (x ++ before), after.
  by rewrite <- app_assoc.
Qed.

(** The trimmed texts of the buffers that are kept lie in the joined
    lines one after the other. *)
Lemma pieces_of_segments (segs : list (list str)) :
  Forall (λ seg, seg ≠ []) segs →
  pieces_in_order (filter (λ t, 50 < length t) (text_of <$> segs))
    (join [newline] (concat segs)).
Proof.
  induction 1 as [|seg segs Hseg Hsegs IH]; [done|].
  rewrite fmap_cons, filter_cons. cbn [concat].
  destruct (strip_decompose (join [newline] seg))
    as (lead & trail & Hjoin & _).
  fold (text_of seg) in Hjoin.
  destruct segs as [|seg' segs].
  - cbn [concat]. rewrite app_nil_r. destruct (decide _); [|done].
    by exists lead, trail.
  - assert (Hne : concat (seg' :: segs) ≠ []).
    { apply Forall_cons in Hsegs as [Hseg' _]. by destruct seg'. }
    rewrite join_app by done. destruct (decide _).
    + exists lead, (trail ++ [newline] ++ join [newline] (concat (seg' :: segs))).
      split.
      * rewrite Hjoin at 1. by rewrite <- !app_assoc.
      * by apply pieces_in_order_app_l, pieces_in_order_app_l.
    + by apply pieces_in_order_app_l, pieces_in_order_app_l.
Qed.

(** X3. The chunk texts lie in the document one after the other, in
    the order of the chunks and without overlap: the document is some
    text, the first chunk text, some text, the second chunk text, and
    so on. So no part of the document is stored twice, and the chunk
    texts together are no longer than the document. *)
Theorem chunk_texts_disjoint content filename :
  pieces_in_order (text <$> chunk_markdown content filename) content
  ∧ sum_list (length ∘ text <$> chunk_markdown content filename)
    ≤ length content.
Proof.
  split.
  - rewrite chunk_markdown_texts.
    rewrite <- (join_split_lines content) at 2.
    rewrite <- (segments_concat (split_lines content)) at 2.
    apply pieces_of_segments.
    eapply Forall_impl; [apply segments_shape|]. by intros seg [? _].
  - rewrite list_fmap_compose, chunk_markdown_texts.
    etrans; [apply sum_list_filter_le|].
    rewrite <- list_fmap_compose.
    etrans; [|rewrite <- (join_split_lines content) at 1;
              rewrite <- (segments_concat (split_lines content)) at 1;
              apply (length_join_concat [newline])].
    induction (segments (split_lines content)) as [|seg segs IH]; [done|].
    assert (E : ∀ (f : list str → nat) k,
      sum_list (f <$> seg :: k) = f seg + sum_list (f <$> k)) by done.
    rewrite !E. pose proof (strip_length (join [newline] seg)).
    unfold text_of, compose in *. lia.
Qed.

Lemma length_some_buffer buf : length (some_buffer buf) ≤ 1.
Proof. destruct buf; simpl; lia. Qed.

Lemma cut_of_closed_length lines :
  length (closed (cut_of lines))
  ≤ length (filter (λ l, is_header l = true) lines).
Proof.
  induction lines as [|line lines IH] using rev_ind; [done|].
  rewrite cut_of_snoc, filter_app, length_app. unfold cut_step.
  rewrite filter_cons, filter_nil.
  destruct (is_header line) eqn:Hh; simpl.
  - rewrite length_app.
    pose proof (length_some_buffer (open (cut_of lines))). lia.
  - lia.
Qed.

(** X4. A document with [k] header lines gives at most [k + 1]
    chunks. *)
Theorem chunk_count_bound content filename :
  length (chunk_markdown content filename)
  ≤ S (length (filter (λ l, is_header l = true) (split_lines content))).
Proof.
  rewrite <- (length_fmap text), chunk_markdown_texts.
  etrans; [apply length_filter|]. rewrite length_fmap.
  unfold segments. rewrite length_app.
  pose proof (cut_of_closed_length (split_lines content)).
  pose proof (length_some_buffer (open (cut_of (split_lines content)))). lia.
Qed.

(** * Blank lines around the document *)

Lemma lstrip_space_app a b :
  Forall (λ c, isspace c = true) a → lstrip (a ++ b) = lstrip b.
Proof. induction 1 as [|c a Hc _ IH]; simpl; [done|]. by rewrite Hc. Qed.

Lemma lstrip_app_space s w :
  Forall (λ c, isspace c = true) w →
  lstrip (s ++ w) = match lstrip s with [] => [] | t => t ++ w end.
Proof.
  intros Hw. induction s as [|c s IH]; simpl.
  - by apply lstrip_all_space.
  - destruct (isspace c); [done|]. done.
Qed.

Lemma strip_space_app a s :
  Forall (λ c, isspace c = true) a → strip (a ++ s) = strip s.
Proof. intros Ha. unfold strip. by rewrite lstrip_space_app. Qed.

Lemma strip_app_space s w :
  Forall (λ c, isspace c = true) w → strip (s ++ w) = strip s.
Proof.
  intros Hw. unfold strip. rewrite lstrip_app_space by done.
  destruct (lstrip s) as [|c t]; [done|].
  unfold rstrip. rewrite rev_app_distr, lstrip_space_app; [done|].
  by apply Forall_rev.
Qed.

Lemma split_lines_all_space ws :
  Forall (λ c, isspace c = true) ws →
  Forall (Forall (λ c, isspace c = true)) (split_lines ws).
Proof.
  intros Hws. unfold split_lines.
  assert (Hgen : ∀ cur, Forall (λ c, isspace c = true) cur →
    Forall (Forall (λ c, isspace c = true)) (split_from cur ws)).
  { induction Hws as [|c ws Hc _ IH]; intros cur Hcur; simpl.
    - by repeat constructor.
    - destruct (c =? newline)%N.
      + constructor; [done|]. apply IH. constructor.
      + apply IH. apply Forall_app. split; [done|]. by repeat constructor. }
  apply Hgen. constructor.
Qed.

Lemma text_of_app_blank buf blank :
  buf ≠ [] → Forall (Forall (λ c, isspace c = true)) blank →
  text_of (buf ++ blank) = text_of buf.
Proof.
  intros Hbuf Hblank. destruct blank as [|b blank].
  { by rewrite app_nil_r. }
  unfold text_of. rewrite join_app by done.
  apply strip_app_space. apply Forall_app. split.
  - by repeat constructor.
  - by apply join_all_space.
Qed.

Lemma text_of_blank_app blank buf :
  buf ≠ [] → Forall (Forall (λ c, isspace c = true)) blank →
  text_of (blank ++ buf) = text_of buf.
Proof.
  intros Hbuf Hblank. destruct blank as [|b blank]; [done|].
  unfold text_of. rewrite join_app by done.
  rewrite app_assoc. apply strip_space_app. apply Forall_app. split.
  - by apply join_all_space.
  - by repeat constructor.
Qed.

Lemma text_of_blank blank :
  Forall (Forall (λ c, isspace c = true)) blank → text_of blank = [].
Proof. intros H. unfold text_of. by apply strip_all_space, join_all_space. Qed.

(** Lines that are no headers only extend the buffer. *)
Lemma run_app_plain filename lines plain :
  Forall (λ line, header_match line = None) plain →
  run filename (lines ++ plain)
  = State (chunks (run filename lines))
      (current_chunk (run filename lines) ++ plain)
      (current_header (run filename lines))
      (header_stack (run filename lines)).
Proof.
  induction plain as [|line plain IH] using rev_ind; intros H.
  { rewrite !app_nil_r. by destruct (run filename lines). }
  apply Forall_app in H as [Hp Hl]. apply Forall_cons in Hl as [Hl _].
  rewrite app_assoc, run_snoc, step_plain, IH
    by (done || unfold header_of; by rewrite Hl).
  simpl. by rewrite <- app_assoc.
Qed.

Lemma flush_same_text filename st st' :
  chunks st = chunks st' → current_header st = current_header st' →
  current_chunk st ≠ [] → current_chunk st' ≠ [] →
  text_of (current_chunk st) = text_of (current_chunk st') →
  flush filename st = flush filename st'.
Proof.
  intros Hc Hh Hn Hn' Ht. rewrite !flush_eq, Hc, Hh. f_equal.
  destruct (current_chunk st) as [|l b]; [done|].
  destruct (current_chunk st') as [|l' b']; [done|].
  simpl. unfold kept. by rewrite Ht.
Qed.

(** X5. Blank lines at the end of a document change nothing: a newline
    followed by any whitespace may be appended to the content and the
    chunks stay the same. *)
Theorem trailing_blank_lines_ignored content ws filename :
  Forall (λ c, isspace c = true) ws →
  chunk_markdown (content ++ newline :: ws) filename
  = chunk_markdown content filename.
Proof.
  intros Hws. unfold chunk_markdown, split_lines.
  rewrite split_from_app_newline. fold (split_lines content).
  pose proof (split_lines_all_space ws Hws) as Hblank.
  rewrite run_app_plain
    by (eapply Forall_impl; [done|]; apply whitespace_line_no_header).
  assert (Hne : current_chunk (run filename (split_lines content)) ≠ []).
  { destruct (run_current_chunk filename (split_lines content))
      as (_ & _ & Hnil & _).
    intros Hcur. by apply Hnil, split_from_nonempty in Hcur. }
  apply flush_same_text; simpl; try done.
  - by destruct (current_chunk _).
  - by apply text_of_app_blank.
Qed.

Lemma trailing_blank_lines_ignored_witness :
  chunk_markdown
    (py "# Install
run the installer and wait until it reports that it is done" ++
     newline :: py "  
	
") (py "guide.md")
  = chunk_markdown
      (py "# Install
run the installer and wait until it reports that it is done")
      (py "guide.md").
Proof.
  apply (trailing_blank_lines_ignored _ (py "  
	
")).
  repeat constructor.
Defined.

Lemma flush_blank_prefix filename blank st st' :
  Forall (Forall (λ c, isspace c = true)) blank →
  chunks st = chunks st' → current_header st = current_header st' →
  current_chunk st' = blank ++ current_chunk st →
  flush filename st = flush filename st'.
Proof.
  intros Hblank Hc Hh Hcur.
  destruct (current_chunk st) as [|l buf] eqn:Hst.
  - rewrite app_nil_r in Hcur. rewrite !flush_eq, Hst, Hcur, Hc. f_equal.
    destruct blank as [|b blank]; [done|]. simpl.
    unfold kept. by rewrite text_of_blank.
  - apply flush_same_text; try done.
    + by rewrite Hst.
    + rewrite Hcur. by destruct blank.
    + rewrite Hst, Hcur. symmetry. by apply text_of_blank_app.
Qed.

(** Blank lines before the buffer make no difference to what the loop
    stores from there on. *)
Lemma fold_blank_prefix filename blank lines st st' :
  Forall (Forall (λ c, isspace c = true)) blank →
  chunks st = chunks st' → current_header st = current_header st' →
  header_stack st = header_stack st' →
  current_chunk st' = blank ++ current_chunk st →
  flush filename (fold_left (step filename) lines st)
  = flush filename (fold_left (step filename) lines st').
Proof.
  intros Hblank. revert st st'.
  induction lines as [|line lines IH]; intros st st' Hc Hh Hs Hcur.
  { by apply (flush_blank_prefix _ blank). }
  simpl. destruct (header_of line) as [h|] eqn:Hline.
  - rewrite !(step_header _ _ _ h) by done.
    rewrite <- Hs, (flush_blank_prefix _ blank st st') by done. done.
  - rewrite !step_plain by done. apply IH; simpl; try done.
    by rewrite Hcur, app_assoc.
Qed.

(** X6. Blank lines at the start of a document change nothing either:
    any whitespace followed by a newline may be put before the content
    and the chunks, header paths included, stay the same. *)
Theorem leading_blank_lines_ignored content ws filename :
  Forall (λ c, isspace c = true) ws →
  chunk_markdown (ws ++ newline :: content) filename
  = chunk_markdown content filename.
Proof.
  intros Hws. unfold chunk_markdown, split_lines.
  rewrite split_from_app_newline. fold (split_lines ws).
  pose proof (split_lines_all_space ws Hws) as Hblank.
  unfold run at 1. rewrite fold_left_app. fold (run filename (split_lines ws)).
  rewrite run_no_header
    by (eapply Forall_impl; [done|]; apply whitespace_line_no_header).
  symmetry. apply (fold_blank_prefix _ (split_lines ws)); try done.
  simpl. by rewrite app_nil_r.
Qed.

Lemma leading_blank_lines_ignored_witness :
  chunk_markdown
    (py "  
	" ++ newline ::
     py "# Install
run the installer and wait until it reports that it is done")
    (py "guide.md")
  = chunk_markdown
      (py "# Install
run the installer and wait until it reports that it is done")
      (py "guide.md").
Proof.
  apply (leading_blank_lines_ignored _ (py "  
	")).
  repeat constructor.
Defined.

(** * More on header paths *)

Lemma increasing_length_le_top stack top :
  increasing stack → Forall (λ h, 1 ≤ h.1) stack →
  last stack = Some top → length stack ≤ top.1.
Proof.
  intros Hinc Hlev Hlast. apply last_Some in Hlast as [below ->].
  rewrite length_app. simpl.
  enough (length below ≤ top.1 - 1)
    by (apply Forall_app in Hlev as [_ [? _]%Forall_cons]; lia).
  apply StronglySorted_app in Hinc as (Hlt & Hbelow & _).
  apply Forall_app in Hlev as [Hlev _].
  rewrite <- (length_fmap fst).
  apply (increasing_bounded_length _ 1 (top.1 - 1)).
  - by apply (StronglySorted_fmap fst (λ a b, a.1 < b.1)).
  - apply Forall_fmap, Forall_forall. intros h Hh. simpl.
    rewrite Forall_forall in Hlev. specialize (Hlev h Hh).
    specialize (Hlt h top Hh). 
    assert (h.1 < top.1) by (apply Hlt; by apply list_elem_of_singleton).
    lia.
Qed.

(** X7. After a header line of level L with title T, the stack is
    what was there below level L with (L, T) on top, it has at most L
    entries, and the current header path is the titles on it joined
    with " > ": at most L titles, the last of them T. A level-1 header
    leaves itself alone on the stack and resets the path to its
    title. *)
Theorem header_path_depth filename pre line h :
  header_of line = Some h →
  header_stack (run filename (pre ++ [line]))
  = filter (λ x, x.1 < h.1) (header_stack (run filename pre)) ++ [h]
  ∧ length ((header_stack (run filename (pre ++ [line]))).*2) ≤ h.1
  ∧ current_header (run filename (pre ++ [line]))
    = join (py " > ") ((header_stack (run filename (pre ++ [line]))).*2)
  ∧ (h.1 = 1 →
     header_stack (run filename (pre ++ [line])) = [h]
     ∧ current_header (run filename (pre ++ [line])) = h.2).
Proof.
  intros Hh.
  assert (Hstack : header_stack (run filename (pre ++ [line]))
    = filter (λ x, x.1 < h.1) (header_stack (run filename pre)) ++ [h]).
  { rewrite run_snoc, (step_header _ _ _ h) by done. simpl.
    rewrite pop_closed_filter; [done| |done].
    rewrite run_header_stack. apply open_headers_increasing. }
  assert (Hlen : length (header_stack (run filename (pre ++ [line]))) ≤ h.1).
  { apply increasing_length_le_top.
    - rewrite run_header_stack. apply open_headers_increasing.
    - rewrite run_header_stack.
      eapply Forall_impl; [apply open_headers_levels|]. simpl. lia.
    - rewrite Hstack. apply last_snoc. }
  assert (Hpath : current_header (run filename (pre ++ [line]))
    = join (py " > ") ((header_stack (run filename (pre ++ [line]))).*2)).
  { rewrite run_snoc, (step_header _ _ _ h) by done. done. }
  split_and!; [done|by rewrite length_fmap|done|].
  intros H1. rewrite Hpath, Hstack.
  rewrite Hstack, length_app in Hlen. simpl in Hlen.
  destruct (filter _ _); [done|simpl in Hlen; lia].
Qed.

Lemma header_path_depth_witness :
  header_stack
    (run (py "f.md") ([py "# A"; py "## B"; py "### C"] ++ [py "# Reset"]))
  = [(1, py "Reset")]
  ∧ current_header
      (run (py "f.md") ([py "# A"; py "## B"; py "### C"] ++ [py "# Reset"]))
    = py "Reset".
Proof.
  apply (header_path_depth (py "f.md") [py "# A"; py "## B"; py "### C"]
           (py "# Reset") (1, py "Reset")); reflexivity.
Defined.

Lemma text_of_starts_with_hash seg :
  starts_with_header seg → text_of seg ≠ [] →
  ∃ rest, text_of seg = hash :: rest.
Proof.
  intros (line & more & -> & Hline) Hne.
  apply is_header_true in Hline as [h Hh].
  apply fmap_Some in Hh as (g & Hg & _).
  destruct (header_match_head line) as [r ->]; [by eexists|].
  unfold text_of, strip in *.
  set (j := join _ _) in *.
  assert (Hj : ∃ t, j = hash :: t).
  { subst j. destruct more; simpl; by eexists. }
  destruct Hj as [t Ht]. clearbody j. subst j.
  change (lstrip (hash :: t)) with (hash :: t) in *.
  destruct (rstrip_prefix (hash :: t)) as [k Hk].
  destruct (rstrip (hash :: t)) as [|c u]; [done|].
  injection Hk as -> _. by eexists.
Qed.

(** X8. Every chunk after the first starts with the hash of the header
    line that opened it, and so does the first when the document starts
    with a header line. *)
Theorem chunks_start_with_header content filename :
  Forall (λ c, ∃ rest, text c = hash :: rest)
    (drop 1 (chunk_markdown content filename))
  ∧ (starts_with_header (split_lines content) →
     Forall (λ c, ∃ rest, text c = hash :: rest)
       (chunk_markdown content filename)).
Proof.
  assert (Hlong : ∀ segs, Forall starts_with_header segs →
    Forall (λ t, ∃ rest, t = hash :: rest)
      (filter (λ t, 50 < length t) (text_of <$> segs))).
  { intros segs Hsegs. apply Forall_forall. intros t.
    rewrite list_elem_of_filter, list_elem_of_fmap.
    intros [Hlen (seg & -> & Hseg)].
    apply text_of_starts_with_hash.
    - rewrite Forall_forall in Hsegs. by apply Hsegs.
    - intros Hnil. rewrite Hnil in Hlen. simpl in Hlen. lia. }
  assert (Htext : ∀ l : list chunk,
    Forall (λ t, ∃ rest, t = hash :: rest) (text <$> l) →
    Forall (λ c, ∃ rest, text c = hash :: rest) l).
  { intros l. by rewrite Forall_fmap. }
  pose proof (segments_starts (split_lines content)) as Htail.
  pose proof (chunk_markdown_texts content filename) as Htexts.
  split.
  - apply Htext. rewrite fmap_drop, Htexts.
    destruct (segments (split_lines content)) as [|seg segs]; [constructor|].
    simpl in Htail. rewrite fmap_cons, filter_cons.
    destruct (decide _); simpl; [by apply Hlong|].
    apply Forall_drop. by apply Hlong.
  - intros (line & more & Hlines & Hline). apply Htext. rewrite Htexts.
    apply Hlong.
    destruct (segments (split_lines content)) as [|seg segs] eqn:Hsegs;
      [constructor|].
    constructor; [|done].
    pose proof (segments_concat (split_lines content)) as Hcat.
    pose proof (segments_shape (split_lines content)) as Hshape.
    rewrite Hsegs in Hcat, Hshape. apply Forall_cons in Hshape as [[Hne _] _].
    destruct seg as [|l seg]; [done|].
    rewrite Hlines in Hcat. simpl in Hcat. injection Hcat as -> _.
    by exists line, seg.
Qed.

Lemma chunks_start_with_header_witness :
  Forall (λ c, ∃ rest, text c = hash :: rest)
    (chunk_markdown (py "# Install
run the installer and wait until it reports that it is done

# Usage
call the tool with the name of the file that it should read")
       (py "guide.md")).
Proof.
  apply (proj2 (chunks_start_with_header _ (py "guide.md"))).
  exists (py "# Install"),
    [py "run the installer and wait until it reports that it is done"; [];
     py "# Usage";
     py "call the tool with the name of the file that it should read"].
  split; vm_compute; reflexivity.
Defined.

(** * Rebuilding the collection *)

Lemma for_each_ok {A} (f : A → M unit) items w :
  (∀ a w, ∃ out, f a w = (Ok (), World (store w) (stdout w ++ out))) →
  ∃ out, for_each f items w = (Ok (), World (store w) (stdout w ++ out)).
Proof.
  intros Hf. revert w. induction items as [|a items IH]; intros w.
  - exists []. destruct w. simpl. by rewrite app_nil_r.
  - destruct (Hf a w) as [out1 H1].
    destruct (IH (World (store w) (stdout w ++ out1))) as [out2 H2].
    exists (out1 ++ out2). simpl. rewrite (bind_ok _ _ _ _ _ H1), H2.
    simpl. by rewrite <- app_assoc.
Qed.

Lemma collection_add_ok name docs old w :
  store w !! name = Some old →
  collection_add name docs w
  = (Ok (), World (<[name := old ++ docs]> (store w)) (stdout w)).
Proof. intros H. unfold collection_add. by rewrite H. Qed.

Lemma get_collection_ok name docs w :
  store w !! name = Some docs → get_collection name w = (Ok docs, w).
Proof. intros H. unfold get_collection. by rewrite H. Qed.

(** What [main] of the indexer does to the store. *)
Lemma index_main_result search files w :
  ∃ out,
    index_main search files w
    = (Ok (),
       World (<[collection_name := documents_of (all_chunks_of files)]>
                (store w))
         (stdout w ++ out)).
Proof.
  unfold index_main.
  destruct (try_delete_ok w) as [out1 H1].
  rewrite (bind_ok _ _ _ _ _ H1).
  rewrite (bind_ok _ _ _ _ _ (create_collection_ok _ _ (lookup_delete_eq _ _))).
  cbn [store stdout]. rewrite insert_delete_eq.
  destruct (chunk_files_ok files []
              (World (<[collection_name := []]> (store w)) (stdout w ++ out1)))
    as [out2 H2].
  rewrite (bind_ok _ _ _ _ _ H2). cbn [app store stdout].
  fold (all_chunks_of files).
  destruct (all_chunks_of files) as [|c cs] eqn:Hall.
  - exists (out1 ++ out2 ++ [py "No chunks found!"]).
    rewrite print_ok. cbn [store stdout]. by rewrite <- !app_assoc.
  - fold (documents_of (c :: cs)).
    erewrite bind_ok
      by (apply (collection_add_ok _ _ []); apply lookup_insert_eq).
    cbn [store stdout app]. rewrite insert_insert_eq.
    rewrite (bind_ok _ _ _ _ _ (print_ok _ _)).
    rewrite (bind_ok _ _ _ _ _ (print_ok _ _)).
    erewrite bind_ok by (apply get_collection_ok; apply lookup_insert_eq).
    cbn zeta.
    destruct (documents _) as [|docs0 ?]; [|destruct (metadatas _) as [|metas0 ?]].
    1,2: eexists; unfold mret, M_ret; cbn [store stdout];
         rewrite <- !app_assoc; reflexivity.
    edestruct (for_each_ok (λ '(i, (doc, meta)),
        print ([newline] ++ py "[" ++ pynat (i + 1) ++ py "] "
               ++ meta_source meta ++ py " > " ++ meta_header meta);;
        print (py "    " ++ take 150 doc ++ py "..."))
      (enumerate_from 0 (zip docs0 metas0))) as [out3 H3]; cycle 1.
    + rewrite H3. eexists. cbn [store stdout].
      rewrite <- !app_assoc. reflexivity.
    + intros [i [doc meta]] w'. eexists.
      rewrite (bind_ok _ _ _ _ _ (print_ok _ _)), print_ok.
      cbn [store stdout]. rewrite <- !app_assoc. reflexivity.
Qed.

(** X9. When [main] of the indexer has run to its end, the collection
    holds exactly the documents made from the chunks of the files, in
    order, whatever it held before and whether it existed or not; every
    other collection of the store is as it was, and the output has only
    grown. *)
Theorem index_main_rebuilds search files w :
  (index_main search files w).1 = Ok () →
  store (index_main search files w).2 !! collection_name
  = Some (documents_of (all_chunks_of files))
  ∧ (∀ name, name ≠ collection_name →
       store (index_main search files w).2 !! name = store w !! name)
  ∧ stdout w `prefix_of` stdout (index_main search files w).2.
Proof.
  intros _.
  destruct (index_main_result search files w) as [out ->]. cbn [fst snd store].
  split_and!.
  - apply lookup_insert_eq.
  - intros name Hname. by apply lookup_insert_ne.
  - by exists out.
Qed.

Lemma index_main_rebuilds_witness :
  let old := Document (py "chunk_7") (py "stale") (Metadata [] []) in
  let w := World {[ py "notes" := [old]; collection_name := [old; old] ]} [] in
  let files := [(py "guide.md", py "# Install
run the installer and wait until it reports that it is done")] in
  let w' := (index_main (λ _ _ _, QueryResults [] [] []) files w).2 in
  store w' !! collection_name
  = Some [Document (py "chunk_0") (py "# Install
run the installer and wait until it reports that it is done")
            (Metadata (py "Install") (py "guide.md"))]
  ∧ store w' !! py "notes" = Some [old].
Proof.
  intros old w files w'. subst w'.
  assert (Hrun : (index_main (λ _ _ _, QueryResults [] [] []) files w).1
                 = Ok ()) by (vm_compute; reflexivity).
  split.
  - rewrite (proj1 (index_main_rebuilds _ files w Hrun)).
    vm_compute. reflexivity.
  - rewrite (proj1 (proj2 (index_main_rebuilds _ files w Hrun)) (py "notes"));
      [reflexivity|].
    intros H. vm_compute in H. discriminate.
Defined.


Lemma py_inj s1 s2 : py s1 = py s2 → s1 = s2.
Proof.
  revert s2. induction s1 as [|a s1 IH]; intros [|b s2]; try done.
  unfold py; fold py. intros [= Hab Hs]. f_equal; [|by apply IH].
  by rewrite <- (ascii_N_embedding a), Hab, ascii_N_embedding.
Qed.

Lemma pynat_inj i j : pynat i = pynat j → i = j.
Proof. intros H%py_inj. by apply (inj pretty) in H. Qed.

Lemma enumerate_from_fst {A} i (l : list A) :
  (enumerate_from i l).*1 = seq i (length l).
Proof.
  revert i. induction l as [|a l IH]; intros i; [done|].
  simpl. by rewrite <- IH.
Qed.

Lemma documents_of_ids all_chunks :
  doc_id <$> documents_of all_chunks
  = (λ i, py "chunk_" ++ pynat i) <$> seq 0 (length all_chunks).
Proof.
  unfold documents_of. rewrite <- enumerate_from_fst, <- !list_fmap_compose.
  apply list_fmap_ext. by intros ? [i c] _.
Qed.

Lemma enumerate_from_snd {A} i (l : list A) : (enumerate_from i l).*2 = l.
Proof.
  revert i. induction l as [|a l IH]; intros i; [done|].
  simpl. by rewrite IH.
Qed.

(** X11. The documents of a run are numbered chunk_0, chunk_1, ... in
    the order of the chunks, and no two of them share an id; each
    document carries the text of its chunk, and the header path and the
    source of its chunk as metadata. *)
Theorem document_ids_sequential all_chunks :
  doc_id <$> documents_of all_chunks
  = (λ i, py "chunk_" ++ pynat i) <$> seq 0 (length all_chunks)
  ∧ NoDup (doc_id <$> documents_of all_chunks)
  ∧ length (documents_of all_chunks) = length all_chunks
  ∧ doc_text <$> documents_of all_chunks = text <$> all_chunks
  ∧ doc_meta <$> documents_of all_chunks
    = (λ c, Metadata (header c) (source c)) <$> all_chunks.
Proof.
  split_and!.
  - apply documents_of_ids.
  - rewrite documents_of_ids. apply NoDup_fmap_2; [|apply NoDup_seq].
    intros i j H. by apply app_inv_head, pynat_inj in H.
  - unfold documents_of. rewrite length_fmap.
    rewrite <- (length_fmap fst), enumerate_from_fst. apply length_seq.
  - unfold documents_of.
    rewrite <- (enumerate_from_snd 0 all_chunks) at 2.
    rewrite <- !list_fmap_compose. apply list_fmap_ext. by intros ? [i c] _.
  - unfold documents_of.
    rewrite <- (enumerate_from_snd 0 all_chunks) at 2.
    rewrite <- !list_fmap_compose. apply list_fmap_ext. by intros ? [i c] _.
Qed.

Lemma elem_of_enumerate_from {A} i (l : list A) j a :
  (j, a) ∈ enumerate_from i l → a ∈ l.
Proof.
  revert i. induction l as [|b l IH]; intros i; simpl.
  - by intros ?%elem_of_nil.
  - intros [[= _ ->]|H]%elem_of_cons; [left|right; by eapply IH].
Qed.

Lemma elem_of_documents_of d all_chunks :
  d ∈ documents_of all_chunks →
  ∃ c, c ∈ all_chunks ∧ doc_text d = text c
       ∧ doc_meta d = Metadata (header c) (source c).
Proof.
  unfold documents_of. intros ([i c] & -> & Hc)%list_elem_of_fmap.
  exists c. split; [by eapply elem_of_enumerate_from|done].
Qed.

Lemma elem_of_concat {A} (x : A) (ls : list (list A)) :
  x ∈ concat ls → ∃ l, x ∈ l ∧ l ∈ ls.
Proof.
  induction ls as [|l ls IH]; simpl; [by intros ?%elem_of_nil|].
  intros [H|H]%elem_of_app.
  - exists l. split; [done|left].
  - destruct (IH H) as (l' & ? & ?). exists l'. split; [done|by right].
Qed.

Lemma elem_of_all_chunks_of c files :
  c ∈ all_chunks_of files →
  ∃ name content, (name, content) ∈ files ∧ c ∈ chunk_markdown content name.
Proof.
  unfold all_chunks_of. intros (l & Hc & Hl)%elem_of_concat.
  apply list_elem_of_fmap in Hl as ([name content] & -> & Hf).
  by exists name, content.
Qed.

(** X12. After [main], every document of the collection has a trimmed
    text longer than 50 characters that is a contiguous piece of one
    of the files, and carries the name of that file as its source. *)
Theorem indexed_documents_good search files w docs :
  store (index_main search files w).2 !! collection_name = Some docs →
  Forall (λ d,
      50 < length (doc_text d) ∧ strip (doc_text d) = doc_text d
      ∧ ∃ name content,
          (name, content) ∈ files ∧ meta_source (doc_meta d) = name
          ∧ substring (doc_text d) content)
    docs.
Proof.
  destruct (index_main_result search files w) as [out ->]. simpl.
  rewrite lookup_insert_eq. intros [= <-].
  apply Forall_forall. intros d (c & Hc & -> & ->)%elem_of_documents_of.
  apply elem_of_all_chunks_of in Hc as (name & content & Hf & Hc).
  unfold chunk_markdown in Hc.
  destruct (run_chunks_good name (split_lines content)) as [Hl Ht].
  apply (flush_long name) in Hl. apply (flush_trimmed name) in Ht.
  rewrite Forall_forall in Hl, Ht.
  pose proof Hc as Hfrom.
  apply flush_chunk_from in Hfrom; [|apply run_chunks_from].
  pose proof (chunk_from_substring _ _ _ Hfrom) as Hsub.
  destruct Hfrom as (_ & _ & _ & _ & _ & _ & _ & Hsrc).
  split_and!; [by apply Hl|by apply Ht|].
  by exists name, content.
Qed.

Lemma indexed_documents_good_witness :
  let files := [(py "guide.md", py "# Install
run the installer and wait until it reports that it is done")] in
  let docs := [Document (py "chunk_0") (py "# Install
run the installer and wait until it reports that it is done")
                 (Metadata (py "Install") (py "guide.md"))] in
  Forall (λ d,
      50 < length (doc_text d) ∧ strip (doc_text d) = doc_text d
      ∧ ∃ name content,
          (name, content) ∈ files ∧ meta_source (doc_meta d) = name
          ∧ substring (doc_text d) content)
    docs.
Proof.
  intros files docs.
  apply (indexed_documents_good (λ _ _ _, QueryResults [] [] []) files
           (World ∅ [])).
  vm_compute. reflexivity.
Defined.

(** * More on the query tool *)

Lemma try_get_collection_found handler stored w :
  store w !! collection_name = Some stored →
  try_except (get_collection collection_name) handler w = (Ok stored, w).
Proof. intros H. unfold try_except, get_collection. by rewrite H. Qed.

(** However [query] ends, it has only printed: the store is as it was.
    It exits exactly when the collection is missing. *)
Lemma query_cases search query_text n_results w :
  ∃ r out,
    query search query_text n_results w
    = (r, World (store w) (stdout w ++ out))
    ∧ (store w !! collection_name = None → r = SysExit 1)
    ∧ (is_Some (store w !! collection_name) → ∀ code, r ≠ SysExit code).
Proof.
  destruct (store w !! collection_name) as [stored|] eqn:Hst.
  2: { exists (SysExit 1),
         [py "Error: Collection 'bug-fix-skills' not found.";
          py "Run 'python scripts/index-skills.py' first to index the documents."].
       split_and!; [|done|by intros [? ?]].
       unfold query, mbind, M_bind, try_except, get_collection.
       rewrite Hst. cbn [store stdout print sys_exit].
       by rewrite <- app_assoc. }
  assert (∃ r out,
    query search query_text n_results w
    = (r, World (store w) (stdout w ++ out)) ∧ ∀ code, r ≠ SysExit code)
    as (r & out & Hq & Hr).
  { unfold query.
    rewrite (bind_ok _ _ _ _ _ (try_get_collection_found _ _ _ Hst)).
    cbn zeta.
    destruct (documents (search stored query_text n_results))
      as [|[|doc docs0] more] eqn:Hdocs.
    1,2: by exists (Ok ()), [py "No results found."].
    rewrite (bind_ok _ _ _ _ _ (print_ok _ _)).
    rewrite (bind_ok _ _ _ _ _ (print_ok _ _)).
    destruct (metadatas (search stored query_text n_results))
      as [|metas0 metas] eqn:Hmetas.
    - exists (Raised (py "TypeError")),
        [py "Query: " ++ query_text ++ [newline]; replicate 60 61%N].
      unfold mbind, M_bind, raise. cbn [store stdout].
      rewrite <- app_assoc. done.
    - erewrite bind_ok by reflexivity.
      rewrite for_each_blocks. cbn [store stdout].
      eexists (Ok ()), _. rewrite <- !app_assoc. done. }
  exists r, out. split_and!; [done|done|by intros _].
Qed.

(** X13. Without the collection, [query] prints its two lines of
    guidance and exits with status 1; it prints nothing else and leaves
    the store alone. *)
Theorem query_missing_collection search query_text n_results w :
  store w !! collection_name = None →
  query search query_text n_results w
  = (SysExit 1,
     World (store w)
       (stdout w
        ++ [py "Error: Collection 'bug-fix-skills' not found.";
            py "Run 'python scripts/index-skills.py' first to index the documents."])).
Proof.
  intros H. unfold query, mbind, M_bind, try_except, get_collection.
  rewrite H. simpl. by rewrite <- app_assoc.
Qed.

Lemma query_missing_collection_witness :
  query (λ _ _ _, QueryResults [] [] []) (py "import error") 5 (World ∅ [])
  = (SysExit 1,
     World ∅
       [py "Error: Collection 'bug-fix-skills' not found.";
        py "Run 'python scripts/index-skills.py' first to index the documents."]).
Proof.
  apply (query_missing_collection (λ _ _ _, QueryResults [] [] [])
           (py "import error") 5 (World ∅ [])).
  reflexivity.
Defined.

(** X14. When the search returns no documents at all, or an empty list
    of hits, [query] prints "No results found." and returns normally. *)
Theorem query_no_results search query_text n_results w stored :
  store w !! collection_name = Some stored →
  (documents (search stored query_text n_results) = []
   ∨ ∃ more, documents (search stored query_text n_results) = [] :: more) →
  query search query_text n_results w
  = (Ok (), World (store w) (stdout w ++ [py "No results found."])).
Proof.
  intros Hst Hdocs. unfold query.
  rewrite (bind_ok _ _ _ _ _ (try_get_collection_found _ _ _ Hst)). cbn zeta.
  by destruct Hdocs as [-> | [more ->]].
Qed.

Lemma query_no_results_witness :
  query (λ _ _ _, QueryResults [[]] [[]] [[]]) (py "import error") 5
    (World {[ collection_name := [] ]} [])
  = (Ok (), World {[ collection_name := [] ]} [py "No results found."]).
Proof.
  rewrite (query_no_results (λ _ _ _, QueryResults [[]] [[]] [[]])
             (py "import error") 5 (World {[ collection_name := [] ]} []) []);
    [reflexivity|reflexivity|right; by exists []].
Defined.

(** X15. When the search returns hits but no metadata list, [query]
    raises after it has printed the two heading lines: the answer of
    the store is not checked beyond its documents. *)
Theorem query_missing_metadatas search query_text n_results w stored
    doc docs0 more :
  store w !! collection_name = Some stored →
  documents (search stored query_text n_results) = (doc :: docs0) :: more →
  metadatas (search stored query_text n_results) = [] →
  ∃ exc,
    query search query_text n_results w
    = (Raised exc,
       World (store w)
         (stdout w
          ++ [py "Query: " ++ query_text ++ [newline]; replicate 60 61%N])).
Proof.
  intros Hst Hdocs Hmetas. eexists. unfold query.
  rewrite (bind_ok _ _ _ _ _ (try_get_collection_found _ _ _ Hst)). cbn zeta.
  rewrite Hdocs, Hmetas.
  rewrite (bind_ok _ _ _ _ _ (print_ok _ _)).
  rewrite (bind_ok _ _ _ _ _ (print_ok _ _)).
  unfold mbind, M_bind, raise. cbn [store stdout].
  by rewrite <- app_assoc.
Qed.

Lemma query_missing_metadatas_witness :
  ∃ exc,
    query (λ _ _ _, QueryResults [[py "check the module path"]] [] [])
      (py "import error") 5 (World {[ collection_name := [] ]} [])
    = (Raised exc,
       World {[ collection_name := [] ]}
         ([] ++ [py "Query: " ++ py "import error" ++ [newline];
                 replicate 60 61%N])).
Proof.
  exact (query_missing_metadatas
           (λ _ _ _, QueryResults [[py "check the module path"]] [] [])
           (py "import error") 5 (World {[ collection_name := [] ]} []) []
           (py "check the module path") [] [] eq_refl eq_refl eq_refl).
Defined.

(** X16. [query] never changes the store, however it ends, and it only
    adds lines to the output. *)
Theorem query_read_only search query_text n_results w :
  store (query search query_text n_results w).2 = store w
  ∧ stdout w `prefix_of` stdout (query search query_text n_results w).2.
Proof.
  destruct (query_cases search query_text n_results w) as (r & out & -> & _).
  cbn [snd store stdout]. split; [done|by exists out].
Qed.

(** X17. Called with no query word, the query tool prints its usage
    and an example and exits with status 1, without opening the
    collection; otherwise the words are joined by single spaces and
    five results are asked for. *)
Theorem query_main_usage search argv w :
  (length argv < 2 →
   query_main search argv w
   = (SysExit 1,
      World (store w)
        (stdout w
         ++ [py "Usage: python query-skills.py <query>";
             py "Example: python query-skills.py 'module not found import error'"])))
  ∧ (∀ prog word words,
       argv = prog :: word :: words →
       query_main search argv w
       = query search (join (py " ") (word :: words)) 5 w)
  ∧ store (query_main search argv w).2 = store w.
Proof.
  assert (Husage : length argv < 2 →
    query_main search argv w
    = (SysExit 1,
       World (store w)
         (stdout w
          ++ [py "Usage: python query-skills.py <query>";
              py "Example: python query-skills.py 'module not found import error'"]))).
  { intros Hlen. unfold query_main. apply Nat.ltb_lt in Hlen as ->.
    unfold mbind, M_bind, print, sys_exit. cbn [store stdout].
    by rewrite <- app_assoc. }
  split_and!; [done| |].
  - by intros prog word words ->.
  - destruct (Nat.ltb_spec (length argv) 2) as [Hlt|Hge].
    + by rewrite Husage.
    + unfold query_main. apply Nat.ltb_ge in Hge as ->.
      by destruct (query_cases search (join (py " ") (drop 1 argv)) 5 w)
        as (r & out & -> & _).
Qed.

Lemma query_main_usage_witness :
  query_main (λ _ _ _, QueryResults [] [] []) [py "query-skills.py"]
    (World ∅ [])
  = (SysExit 1,
     World ∅
       [py "Usage: python query-skills.py <query>";
        py "Example: python query-skills.py 'module not found import error'"]).
Proof.
  rewrite (proj1 (query_main_usage (λ _ _ _, QueryResults [] [] [])
                    [py "query-skills.py"] (World ∅ [])));
    [reflexivity|simpl; lia].
Defined.






(** X19. The preview of a hit with at most 15 lines is its text,
    unchanged; of a longer hit it is the first 15 lines followed by a
    line that counts the lines left out. *)
Theorem result_preview i doc meta d :
  (length (split_lines doc) ≤ 15 →
   result_block (i, (doc, meta, d)) !! 3 = Some doc)
  ∧ (15 < length (split_lines doc) →
     ∃ shown hidden,
       split_lines doc = shown ++ hidden ∧ length shown = 15
       ∧ result_block (i, (doc, meta, d)) !! 3
         = Some (join [newline] shown ++ [newline] ++ py "... ("
                 ++ pynat (length hidden) ++ py " more lines)")).
Proof.
  split.
  - intros Hlen. cbn [result_block lookup list_lookup].
    apply Nat.ltb_ge in Hlen as Hlt. rewrite Hlt.
    by rewrite take_ge, join_split_lines.
  - intros Hlen. exists (take 15 (split_lines doc)), (drop 15 (split_lines doc)).
    split_and!; [by rewrite take_drop|rewrite length_take; lia|].
    cbn [result_block lookup list_lookup].
    apply Nat.ltb_lt in Hlen as ->. by rewrite length_drop.
Qed.

Lemma result_preview_witness :
  result_block (0, (py "line 1
line 2", Metadata (py "H") (py "f.md"), Zero)) !! 3
  = Some (py "line 1
line 2").
Proof.
  apply (proj1 (result_preview 0 (py "line 1
line 2") (Metadata (py "H") (py "f.md")) Zero)).
  vm_compute. lia.
Defined.

(** X20. After the indexer has run, the query tool finds the
    collection, whatever the files were: it never takes the exit for a
    missing collection, and the documents it searches are those made
    from the chunks of the files. *)
Theorem query_after_index search search' files w query_text n_results :
  (∀ code,
     (query search query_text n_results (index_main search' files w).2).1
     ≠ SysExit code)
  ∧ get_collection collection_name (index_main search' files w).2
    = (Ok (documents_of (all_chunks_of files)), (index_main search' files w).2).
Proof.
  destruct (index_main_result search' files w) as [out ->]. cbn [snd].
  set (w' := World _ _).
  assert (Hst : store w' !! collection_name
                = Some (documents_of (all_chunks_of files)))
    by apply lookup_insert_eq.
  split; [|by apply get_collection_ok].
  destruct (query_cases search query_text n_results w')
    as (r & out' & -> & _ & Hr).
  apply Hr. by rewrite Hst.
Qed.

(** X21. The loop that pops closed headers ends within as many turns
    as the stack has entries, and more turns change nothing. It stops
    with the stack empty or under a top of smaller level, and what it
    has removed is a run of entries of at least the new level at the
    top: an entry below one of smaller level stays, whatever its own
    level. *)
Theorem pop_closed_terminates fuel level stack :
  length stack ≤ fuel →
  pop_closed fuel level stack = pop_closed (length stack) level stack
  ∧ ∃ popped,
      stack = pop_closed (length stack) level stack ++ popped
      ∧ Forall (λ h, level ≤ h.1) popped
      ∧ ∀ top,
          last (pop_closed (length stack) level stack) = Some top →
          top.1 < level.
Proof.
  intros Hlen. split; [by apply pop_closed_fuel|].
  by apply pop_closed_spec.
Qed.

Lemma pop_closed_terminates_witness :
  pop_closed 7 2 [(3, py "deep"); (1, py "A"); (2, py "B"); (4, py "D")]
  = pop_closed 4 2 [(3, py "deep"); (1, py "A"); (2, py "B"); (4, py "D")]
  ∧ pop_closed 4 2 [(3, py "deep"); (1, py "A"); (2, py "B"); (4, py "D")]
    = [(3, py "deep"); (1, py "A")].
Proof.
  split; [|reflexivity].
  apply (pop_closed_terminates 7 2
           [(3, py "deep"); (1, py "A"); (2, py "B"); (4, py "D")]).
  simpl. lia.
Defined.
